(** * P2PClient: the session registry and dispatch layer

    A shallow embedding of [talk/ics/sdk/p2p/p2pclient.cc] and of
    [talk/oms/sdk/base/exception.cc].

    Member functions become functions in a small state-and-output monad:
    the state is the [P2PClient] object, the output is the list of calls the
    function makes on its collaborators (the signaling channel, the
    peer-connection channels, the logger).  Callbacks handed in by the
    application are opaque [std::function] values; they are modelled by
    identifiers, an empty [std::function] by [None].  A member function runs
    in one piece; the part on threads runs [Stop] statement by statement, with
    [remote_ids_mutex_], next to other threads. *)

From stdpp Require Import gmap strings list fin_maps.

(** ** exception.cc *)

Module Exception.

(** Modelled from the spec: the enumeration [ExceptionType] is declared in
    [exception.h], which is not among the sources.  The three kinds the
    sources name, and [kOther] for the kinds of the collaborators, which
    the client passes through. *)
Inductive ExceptionType : Type :=
| kUnknown
| kP2PClientRemoteNotAllowed
| kP2PClientRemoteNotExisted
| kOther (code : nat).

Record Exception : Type := mkException {
  type_ : ExceptionType;
  message_ : string
}.

(** [Exception::Exception(const ExceptionType&, const std::string&)] *)
Definition new (type : ExceptionType) (message : string) : Exception :=
  {| type_ := type; message_ := message |}.

(** [Exception::Exception()] *)
Definition new_default : Exception := new kUnknown "Unknown exception.".

(** [Exception::Type() const] *)
Definition Type_ (e : Exception) : ExceptionType := type_ e.

(** [Exception::Message() const] *)
Definition Message (e : Exception) : string := message_ e.

End Exception.

Import Exception.

(** ** Values the client handles *)

(** Application callbacks ([std::function] objects) and observers
    ([P2PClientObserver&], compared by address) are identified by a number. *)
Definition Callback : Type := nat.
Definition Observer : Type := nat.
(** [std::shared_ptr<LocalStream>] and [std::shared_ptr<RemoteStream>] *)
Definition Stream : Type := nat.
(** The address of a [P2PPeerConnectionChannel] object. *)
Definition Pcc : Type := nat.
(** The address of the [P2PClient] object ([this]). *)
Definition ClientRef : Type := nat.

(** Modelled from the spec: [P2PClientConfiguration] and
    [PeerConnectionChannelConfiguration] are declared in headers that are not
    among the sources.  The configuration is an ordered sequence of ICE
    servers (urls, username, password) and a candidate network policy, low
    cost or all; these are the members [GetPeerConnectionChannelConfiguration]
    reads and writes. *)
Inductive CandidateNetworkPolicy : Type := kAll | kLowCost.
Inductive RtcCandidateNetworkPolicy : Type :=
| kCandidateNetworkPolicyAll
| kCandidateNetworkPolicyLowCost.

Record IceServer : Type := mkIceServer {
  urls : list string;
  username : string;
  password : string
}.

Record P2PClientConfiguration : Type := mkP2PClientConfiguration {
  ice_servers : list IceServer;
  candidate_network_policy : CandidateNetworkPolicy
}.

Record PeerConnectionChannelConfiguration : Type := mkPccConfiguration {
  servers : list IceServer;
  pcc_candidate_network_policy : RtcCandidateNetworkPolicy
}.

(** Modelled from the spec: the class [P2PPublication] is declared in a
    header that is not among the sources.  A publication is bound to the
    owning client, the target identity and the stream, the arguments of the
    constructor call [P2PPublication(that, target_id, stream)]. *)
Record P2PPublication : Type := mkP2PPublication {
  publication_client : ClientRef;
  publication_target_id : string;
  publication_stream : Stream
}.

(** The success lambda of [Publish],
    [[on_success, weak_this, target_id, stream] () { ... }]: its captures. *)
Record PublishContinuation : Type := mkPublishContinuation {
  captured_on_success : option Callback;
  captured_weak_this : ClientRef;
  captured_target_id : string;
  captured_stream : Stream
}.

Inductive LoggingSeverity : Type := LS_INFO | LS_WARNING.

(** The events a client raises on its observers. *)
Inductive ObserverEvent : Type :=
| OnServerDisconnectedEv
| OnChatStartedEv (remote_id : string)
| OnChatStoppedEv (remote_id : string)
| OnDeniedEv (remote_id : string)
| OnDataReceivedEv (remote_id message : string)
| OnStreamAddedEv (stream : Stream)
| OnStreamRemovedEv (stream : Stream).

(** A task posted to [event_queue_]. *)
Inductive Task : Type :=
| TaskFailure (on_failure : Callback) (e : Exception)
| TaskNotify (observer : Observer) (ev : ObserverEvent).

(** What the application sees: one of its callbacks or observers invoked. *)
Inductive Invocation : Type :=
| InvokeFailure (on_failure : Callback) (e : Exception)
| InvokeFailureCode (on_failure : Callback) (code : nat)
| InvokeSuccess (on_success : Callback)
| InvokeStats (on_success : Callback)
| InvokePublication (on_success : Callback) (publication : P2PPublication)
| InvokeObserver (observer : Observer) (ev : ObserverEvent).

(** A call the client makes on a collaborator. *)
Inductive Call : Type :=
| Log (severity : LoggingSeverity) (text : string)
| SignalingAddObserver (client : ClientRef)
| SignalingConnect (host token : string) (on_success on_failure : option Callback)
| SignalingDisconnect (on_success on_failure : option Callback)
| SignalingSendMessage (message remote_id : string)
    (on_success on_failure : option Callback)
| PccNew (pcc : Pcc) (config : PeerConnectionChannelConfiguration)
    (local_id remote_id : string)
| PccAddObserver (pcc : Pcc) (client : ClientRef)
| PccPublish (pcc : Pcc) (stream : Stream)
    (on_success : PublishContinuation) (on_failure : option Callback)
| PccUnpublish (pcc : Pcc) (stream : Stream) (on_success on_failure : option Callback)
| PccSend (pcc : Pcc) (message : string) (on_success on_failure : option Callback)
| PccStop (pcc : Pcc) (on_success on_failure : option Callback)
| PccGetConnectionStats (pcc : Pcc) (on_success on_failure : option Callback)
| PccOnIncomingSignalingMessage (pcc : Pcc) (message : string).

(** ** The client object *)

Record P2PClient : Type := mkP2PClient {
  this : ClientRef;
  local_id_ : string;
  configuration_ : P2PClientConfiguration;
  allowed_remote_ids_ : list string;
  pc_channels_ : gmap string Pcc;
  observers_ : list Observer;
  (** the tasks posted to [event_queue_] and not run yet, oldest first *)
  event_queue_ : list Task;
  (** the allocator: the address the next [new P2PPeerConnectionChannel]
      returns *)
  next_pcc : Pcc
}.

Definition set_allowed_remote_ids (f : list string → list string) (c : P2PClient) : P2PClient :=
  {| this := this c; local_id_ := local_id_ c;
     configuration_ := configuration_ c;
     allowed_remote_ids_ := f (allowed_remote_ids_ c);
     pc_channels_ := pc_channels_ c; observers_ := observers_ c;
     event_queue_ := event_queue_ c; next_pcc := next_pcc c |}.

Definition set_pc_channels (f : gmap string Pcc → gmap string Pcc) (c : P2PClient) : P2PClient :=
  {| this := this c; local_id_ := local_id_ c;
     configuration_ := configuration_ c;
     allowed_remote_ids_ := allowed_remote_ids_ c;
     pc_channels_ := f (pc_channels_ c); observers_ := observers_ c;
     event_queue_ := event_queue_ c; next_pcc := next_pcc c |}.

Definition set_observers (f : list Observer → list Observer) (c : P2PClient) : P2PClient :=
  {| this := this c; local_id_ := local_id_ c;
     configuration_ := configuration_ c;
     allowed_remote_ids_ := allowed_remote_ids_ c;
     pc_channels_ := pc_channels_ c; observers_ := f (observers_ c);
     event_queue_ := event_queue_ c; next_pcc := next_pcc c |}.

Definition set_event_queue (f : list Task → list Task) (c : P2PClient) : P2PClient :=
  {| this := this c; local_id_ := local_id_ c;
     configuration_ := configuration_ c;
     allowed_remote_ids_ := allowed_remote_ids_ c;
     pc_channels_ := pc_channels_ c; observers_ := observers_ c;
     event_queue_ := f (event_queue_ c); next_pcc := next_pcc c |}.

Definition set_next_pcc (f : Pcc → Pcc) (c : P2PClient) : P2PClient :=
  {| this := this c; local_id_ := local_id_ c;
     configuration_ := configuration_ c;
     allowed_remote_ids_ := allowed_remote_ids_ c;
     pc_channels_ := pc_channels_ c; observers_ := observers_ c;
     event_queue_ := event_queue_ c; next_pcc := f (next_pcc c) |}.

(** ** The monad of member functions *)

Definition M (A : Type) : Type := P2PClient → A * P2PClient * list Call.

Global Instance M_ret : MRet M := λ A a c, (a, c, []).
Global Instance M_bind : MBind M := λ A B k m c,
  let '(a, c1, out1) := m c in
  let '(b, c2, out2) := k a c1 in
  (b, c2, out1 ++ out2).

Definition get : M P2PClient := λ c, (c, c, []).
Definition modify (f : P2PClient → P2PClient) : M unit := λ c, (tt, f c, []).
Definition call (x : Call) : M unit := λ c, (tt, c, [x]).

(** the state and the calls of a run *)
Definition state_of {A} (r : A * P2PClient * list Call) : P2PClient := r.1.2.
Definition calls_of {A} (r : A * P2PClient * list Call) : list Call := r.2.
Definition value_of {A} (r : A * P2PClient * list Call) : A := r.1.1.

(** [event_queue_->PostTask(...)] *)
Definition PostTask (t : Task) : M unit :=
  modify (set_event_queue (λ q, q ++ [t])).

(** [std::find(v.begin(), v.end(), x) != v.end()] *)
Definition found (x : string) (v : list string) : bool := bool_decide (x ∈ v).

(** [v.erase(std::remove(v.begin(), v.end(), x), v.end())] *)
Definition erase_remove (x : string) (v : list string) : list string :=
  filter (λ y, y ≠ x) v.

(** The payload of the close notification: an object with the one field
    type, whose value is chat-closed, written without any space. *)
Definition dquote : string := String (Ascii.ascii_of_nat 34) EmptyString.
Definition chat_closed : string :=
  "{" +:+ dquote +:+ "type" +:+ dquote +:+ ":" +:+ dquote +:+ "chat-closed"
      +:+ dquote +:+ "}".

(** ** Member functions *)

(** [P2PClient::P2PClient(configuration, signaling_channel)]: the client
    registers itself as an observer of the signaling channel. *)
Definition P2PClient_new (self : ClientRef) (configuration : P2PClientConfiguration)
  : P2PClient * list Call :=
  ({| this := self; local_id_ := ""; configuration_ := configuration;
      allowed_remote_ids_ := []; pc_channels_ := ∅; observers_ := [];
      event_queue_ := []; next_pcc := 0 |},
   [SignalingAddObserver self]).

Definition Connect (host token : string) (on_success on_failure : option Callback)
  : M unit :=
  call (SignalingConnect host token on_success on_failure).

Definition Disconnect (on_success on_failure : option Callback) : M unit :=
  call (SignalingDisconnect on_success on_failure).

Definition AddAllowedRemoteId (target_id : string) : M unit :=
  c ← get;
  if found target_id (allowed_remote_ids_ c) then
    call (Log LS_INFO "Adding duplicated remote id.")
  else
    modify (set_allowed_remote_ids (λ v, v ++ [target_id])).

Definition IsPeerConnectionChannelCreated (target_id : string) : M bool :=
  c ← get;
  match pc_channels_ c !! target_id with
  | None => mret false
  | Some _ => mret true
  end.

Definition GetPeerConnectionChannelConfiguration
  : M PeerConnectionChannelConfiguration :=
  c ← get;
  let ice_servers :=
    map (λ it, {| urls := urls it; username := username it;
                  password := password it |})
        (ice_servers (configuration_ c)) in
  mret {| servers := ice_servers;
          pcc_candidate_network_policy :=
            match candidate_network_policy (configuration_ c) with
            | kLowCost => kCandidateNetworkPolicyLowCost
            | kAll => kCandidateNetworkPolicyAll
            end |}.

(** [new P2PPeerConnectionChannel(config, local_id_, target_id, ...)] *)
Definition new_P2PPeerConnectionChannel
    (config : PeerConnectionChannelConfiguration) (target_id : string) : M Pcc :=
  c ← get;
  let pcc := next_pcc c in
  modify (set_next_pcc S);;
  call (PccNew pcc config (local_id_ c) target_id);;
  mret pcc.

(** [std::map::insert]: the pair is inserted unless the key is there. *)
Definition map_insert_pair (k : string) (v : Pcc) (m : gmap string Pcc)
  : gmap string Pcc :=
  match m !! k with
  | None => <[k := v]> m
  | Some _ => m
  end.

Definition GetPeerConnectionChannel (target_id : string) : M Pcc :=
  c ← get;
  match pc_channels_ c !! target_id with
  | None =>
      config ← GetPeerConnectionChannelConfiguration;
      pcc ← new_P2PPeerConnectionChannel config target_id;
      call (PccAddObserver pcc (this c));;
      modify (set_pc_channels (map_insert_pair target_id pcc));;
      mret pcc
  | Some pcc => mret pcc
  end.

(** [if (on_failure) event_queue_->PostTask([on_failure] { ... })] *)
Definition post_failure (on_failure : option Callback)
    (type : ExceptionType) (message : string) : M unit :=
  match on_failure with
  | Some f => PostTask (TaskFailure f (Exception.new type message))
  | None => mret tt
  end.

Definition Stop (target_id : string) (on_success on_failure : option Callback)
  : M unit :=
  pcc ← GetPeerConnectionChannel target_id;
  call (PccStop pcc on_success on_failure);;
  modify (set_pc_channels (delete target_id));;
  modify (set_allowed_remote_ids (erase_remove target_id)).

Definition RemoveAllowedRemoteId (target_id : string)
    (on_success on_failure : option Callback) : M unit :=
  c ← get;
  if negb (found target_id (allowed_remote_ids_ c)) then
    post_failure on_failure kP2PClientRemoteNotExisted
      "Trying to delete non-existed remote id."
  else
    Stop target_id on_success on_failure.

Definition Publish (target_id : string) (stream : Stream)
    (on_success on_failure : option Callback) : M unit :=
  c ← get;
  if negb (found target_id (allowed_remote_ids_ c)) then
    post_failure on_failure kP2PClientRemoteNotAllowed
      "Publishing a stream cannot be done since the remote user is not allowed."
  else
    pcc ← GetPeerConnectionChannel target_id;
    call (PccPublish pcc stream
            {| captured_on_success := on_success;
               captured_weak_this := this c;
               captured_target_id := target_id;
               captured_stream := stream |}
            on_failure).

Definition Send (target_id message : string)
    (on_success on_failure : option Callback) : M unit :=
  c ← get;
  if negb (found target_id (allowed_remote_ids_ c)) then
    post_failure on_failure kP2PClientRemoteNotAllowed
      "Sending a message cannot be done since the remote user is not allowed."
  else
    pcc ← GetPeerConnectionChannel target_id;
    call (PccSend pcc message on_success on_failure).

Definition GetConnectionStats (target_id : string)
    (on_success on_failure : option Callback) : M unit :=
  pcc ← GetPeerConnectionChannel target_id;
  call (PccGetConnectionStats pcc on_success on_failure).

Definition Unpublish (target_id : string) (stream : Stream)
    (on_success on_failure : option Callback) : M unit :=
  pcc ← GetPeerConnectionChannel target_id;
  call (PccUnpublish pcc stream on_success on_failure).

Definition OnMessage (message remote_id : string) : M unit :=
  c ← get;
  if negb (found remote_id (allowed_remote_ids_ c)) then
    call (Log LS_WARNING
            "Chat cannot be setup since the remote user is not allowed.")
  else
    (if bool_decide (message = chat_closed) return M bool then
       created ← IsPeerConnectionChannelCreated remote_id;
       mret (negb created)
     else mret false) ≫= λ closing_unknown : bool,
    if closing_unknown then
      call (Log LS_WARNING "Non-existed chat cannot be stopped.")
    else
      pcc ← GetPeerConnectionChannel remote_id;
      call (PccOnIncomingSignalingMessage pcc message).

(** The caller's [on_failure] is not handed on: the channel gets [nullptr]. *)
Definition SendSignalingMessage (message remote_id : string)
    (on_success on_failure : option Callback) : M unit :=
  call (SignalingSendMessage message remote_id on_success None).

Definition AddObserver (observer : Observer) : M unit :=
  modify (set_observers (λ v, v ++ [observer])).

(** [std::find_if]: the position of the first element that satisfies [p],
    the length of the vector ([end()]) when there is none. *)
Fixpoint find_if {A} (p : A → bool) (v : list A) : nat :=
  match v with
  | [] => 0
  | x :: v' => if p x then 0 else S (find_if p v')
  end.

(** [std::vector::erase(it)]: defined for a position inside the vector only;
    erasing [end()] is undefined, which is [None] here. *)
Definition vector_erase {A} (v : list A) (it : nat) : option (list A) :=
  if decide (it < length v) then Some (delete it v) else None.

Definition RemoveObserver (observer : Observer) (c : P2PClient)
  : option (P2PClient * list Call) :=
  v ← vector_erase (observers_ c)
        (find_if (λ o, bool_decide (observer = o)) (observers_ c));
  Some (set_observers (λ _, v) c, []).

(** Modelled from the spec: [EventTrigger::OnEvent0/1/2] is defined in
    [eventtrigger.h], which is not among the sources.  An event is enqueued on
    the event queue for every registered observer, in registration order. *)
Definition OnEvent (ev : ObserverEvent) : M unit :=
  c ← get;
  modify (set_event_queue (λ q, q ++ map (λ o, TaskNotify o ev) (observers_ c))).

Definition OnServerDisconnected : M unit := OnEvent OnServerDisconnectedEv.
Definition OnStarted (remote_id : string) : M unit :=
  OnEvent (OnChatStartedEv remote_id).
Definition OnStopped (remote_id : string) : M unit :=
  OnEvent (OnChatStoppedEv remote_id).
Definition OnDenied (remote_id : string) : M unit :=
  OnEvent (OnDeniedEv remote_id).
Definition OnData (remote_id message : string) : M unit :=
  OnEvent (OnDataReceivedEv remote_id message).
Definition OnStreamAdded (stream : Stream) : M unit :=
  OnEvent (OnStreamAddedEv stream).
Definition OnStreamRemoved (stream : Stream) : M unit :=
  OnEvent (OnStreamRemovedEv stream).

(** ** The event queue and the collaborators' replies *)

(** Running a posted task invokes the callback or the observer it captured. *)
Definition run_task (t : Task) : Invocation :=
  match t with
  | TaskFailure on_failure e => InvokeFailure on_failure e
  | TaskNotify observer ev => InvokeObserver observer ev
  end.

(** The queue runs its oldest task. *)
Definition run_next (c : P2PClient) : option (Invocation * P2PClient) :=
  match event_queue_ c with
  | [] => None
  | t :: q => Some (run_task t, set_event_queue (λ _, q) c)
  end.

(** The queue runs every task posted so far, oldest first. *)
Definition drain (c : P2PClient) : list Invocation * P2PClient :=
  (map run_task (event_queue_ c), set_event_queue (λ _, []) c).

(** The body of the success lambda of [Publish].  [lock] is
    [weak_this.lock()]: [None] once the client is destroyed. *)
Definition run_publish_continuation (lock : ClientRef → option ClientRef)
    (k : PublishContinuation) : list Invocation :=
  match captured_on_success k with
  | None => []
  | Some on_success =>
      match lock (captured_weak_this k) with
      | None => []
      | Some that =>
          [InvokePublication on_success
             {| publication_client := that;
                publication_target_id := captured_target_id k;
                publication_stream := captured_stream k |}]
      end
  end.

(** A collaborator that fails a request calls the failure callback it was
    given, if it was given one. *)
Definition report_failure (on_failure : option Callback) (e : Exception)
  : list Invocation :=
  match on_failure with
  | Some f => [InvokeFailure f e]
  | None => []
  end.

Definition report_failure_code (on_failure : option Callback) (code : nat)
  : list Invocation :=
  match on_failure with
  | Some f => [InvokeFailureCode f code]
  | None => []
  end.

Definition report_success (on_success : option Callback) : list Invocation :=
  match on_success with
  | Some f => [InvokeSuccess f]
  | None => []
  end.

(** ** Entry points and reachable states *)

(** The entry points of the client: the public member functions, called by
    the application, and the observer functions, called by the signaling
    channel and by the peer-connection channels. *)
Inductive Op : Type :=
| OpConnect (host token : string) (on_success on_failure : option Callback)
| OpDisconnect (on_success on_failure : option Callback)
| OpAddAllowedRemoteId (target_id : string)
| OpRemoveAllowedRemoteId (target_id : string)
    (on_success on_failure : option Callback)
| OpPublish (target_id : string) (stream : Stream)
    (on_success on_failure : option Callback)
| OpUnpublish (target_id : string) (stream : Stream)
    (on_success on_failure : option Callback)
| OpSend (target_id message : string) (on_success on_failure : option Callback)
| OpStop (target_id : string) (on_success on_failure : option Callback)
| OpGetConnectionStats (target_id : string)
    (on_success on_failure : option Callback)
| OpAddObserver (observer : Observer)
| OpRemoveObserver (observer : Observer)
| OpOnMessage (message remote_id : string)
| OpSendSignalingMessage (message remote_id : string)
    (on_success on_failure : option Callback)
| OpOnEvent (ev : ObserverEvent).

Definition run_unit (m : M unit) (c : P2PClient) : option (P2PClient * list Call) :=
  Some (state_of (m c), calls_of (m c)).

(** [None]: the call has no defined behaviour. *)
Definition exec (op : Op) (c : P2PClient) : option (P2PClient * list Call) :=
  match op with
  | OpConnect host token s f => run_unit (Connect host token s f) c
  | OpDisconnect s f => run_unit (Disconnect s f) c
  | OpAddAllowedRemoteId id => run_unit (AddAllowedRemoteId id) c
  | OpRemoveAllowedRemoteId id s f => run_unit (RemoveAllowedRemoteId id s f) c
  | OpPublish id stream s f => run_unit (Publish id stream s f) c
  | OpUnpublish id stream s f => run_unit (Unpublish id stream s f) c
  | OpSend id message s f => run_unit (Send id message s f) c
  | OpStop id s f => run_unit (Stop id s f) c
  | OpGetConnectionStats id s f => run_unit (GetConnectionStats id s f) c
  | OpAddObserver o => run_unit (AddObserver o) c
  | OpRemoveObserver o => RemoveObserver o c
  | OpOnMessage message id => run_unit (OnMessage message id) c
  | OpSendSignalingMessage message id s f =>
      run_unit (SendSignalingMessage message id s f) c
  | OpOnEvent ev => run_unit (OnEvent ev) c
  end.

(** The states a client goes through: a new client, then any sequence of
    entry points with defined behaviour, of tasks run by the queue, and of
    tasks posted by the channels: [event_queue_] is handed to every channel
    the client creates (the last argument of [new P2PPeerConnectionChannel]),
    and what a channel posts there is not in the sources, so any tasks. *)
Inductive reachable : P2PClient → Prop :=
| reachable_new self configuration :
    reachable (P2PClient_new self configuration).1
| reachable_exec c op c' out :
    reachable c → exec op c = Some (c', out) → reachable c'
| reachable_run_next c i c' :
    reachable c → run_next c = Some (i, c') → reachable c'
| reachable_channel_posts c tasks :
    reachable c → reachable (set_event_queue (λ q, q ++ tasks) c).

(** ** Notions of the statements *)

Ltac unfold_M :=
  unfold run_unit, state_of, calls_of, value_of,
    Publish, Send, Stop, RemoveAllowedRemoteId, GetConnectionStats, Unpublish,
    OnMessage, AddAllowedRemoteId, SendSignalingMessage, AddObserver, OnEvent,
    Connect, Disconnect, IsPeerConnectionChannelCreated,
    GetPeerConnectionChannel, new_P2PPeerConnectionChannel,
    GetPeerConnectionChannelConfiguration, post_failure, PostTask,
    get, modify, call, mbind, mret, M_bind, M_ret in *.

(** The configuration a new channel gets. *)
Definition pcc_configuration (c : P2PClient) : PeerConnectionChannelConfiguration :=
  value_of (GetPeerConnectionChannelConfiguration c).

(** The state after a channel was created for [target_id]. *)
Definition with_new_channel (target_id : string) (c : P2PClient) : P2PClient :=
  set_pc_channels <[target_id := next_pcc c]> (set_next_pcc S c).

(** ** A client for the examples *)

(** A client that allows the identity eve and has no session yet. *)
Definition client_allowing_eve : P2PClient :=
  state_of (AddAllowedRemoteId "eve"
              (P2PClient_new 1 (mkP2PClientConfiguration [] kAll)).1).

(** ** Invariants of the reachable states *)

Record client_inv (c : P2PClient) : Prop := {
  (** an identity is listed at most once *)
  inv_allowed_NoDup : NoDup (allowed_remote_ids_ c);
  (** the channels of the map were allocated by this client *)
  inv_channels_allocated :
    ∀ id pcc, pc_channels_ c !! id = Some pcc → pcc < next_pcc c;
  (** two identities never share a channel *)
  inv_channels_distinct :
    ∀ id1 id2 pcc,
      pc_channels_ c !! id1 = Some pcc → pc_channels_ c !! id2 = Some pcc →
      id1 = id2
}.

(** ** One session for an identity *)

(** Entry points carried out one after the other. *)
Fixpoint exec_all (ops : list Op) (c : P2PClient)
  : option (P2PClient * list Call) :=
  match ops with
  | [] => Some (c, [])
  | op :: ops' =>
      match exec op c with
      | None => None
      | Some (c1, out1) =>
          match exec_all ops' c1 with
          | None => None
          | Some (c2, out2) => Some (c2, out1 ++ out2)
          end
      end
  end.

(** The entry points that end the session of [id]. *)
Definition stops (id : string) (op : Op) : bool :=
  match op with
  | OpStop target_id _ _ => bool_decide (target_id = id)
  | OpRemoveAllowedRemoteId target_id _ _ => bool_decide (target_id = id)
  | _ => false
  end.

(** ** Sessions for identities that are not allowed *)

(** A channel is created for [id] in the calls [out]. *)
Definition creates (id : string) (out : list Call) : Prop :=
  ∃ pcc config local_id, PccNew pcc config local_id id ∈ out.

(** ** Signaling *)

(** The signaling channel fails a [SendMessage] request with an error code:
    it calls the failure callback of the request, if the request has one. *)
Definition signaling_failure (x : Call) (code : nat) : list Invocation :=
  match x with
  | SignalingSendMessage _ _ _ on_failure => report_failure_code on_failure code
  | _ => []
  end.

(** ** The client among its collaborators *)

(** A request is a call that the collaborator answers later, through one of
    the callbacks of the call. *)
Definition is_request (x : Call) : bool :=
  match x with
  | SignalingConnect _ _ _ _ | SignalingDisconnect _ _
  | SignalingSendMessage _ _ _ _
  | PccPublish _ _ _ _ | PccUnpublish _ _ _ _ | PccSend _ _ _ _
  | PccStop _ _ _ | PccGetConnectionStats _ _ _ => true
  | _ => false
  end.

(** The collaborator reports that the request succeeded: it calls the success
    callback of the request.  For [PccPublish] this is the success lambda of
    [Publish]; [alive] says whether the client still exists. *)
Definition reply_success (alive : bool) (x : Call) : list Invocation :=
  match x with
  | PccPublish _ _ k _ =>
      run_publish_continuation (λ r, if alive then Some r else None) k
  | PccGetConnectionStats _ on_success _ =>
      match on_success with
      | Some f => [InvokeStats f]
      | None => []
      end
  | SignalingConnect _ _ on_success _ | SignalingDisconnect on_success _
  | SignalingSendMessage _ _ on_success _
  | PccUnpublish _ _ on_success _ | PccSend _ _ on_success _
  | PccStop _ on_success _ => report_success on_success
  | _ => []
  end.

(** The collaborator reports that the request failed, with an exception. *)
Definition reply_failure (x : Call) (e : Exception) : list Invocation :=
  match x with
  | SignalingConnect _ _ _ on_failure | SignalingDisconnect _ on_failure
  | PccPublish _ _ _ on_failure | PccUnpublish _ _ _ on_failure
  | PccSend _ _ _ on_failure | PccStop _ _ on_failure
  | PccGetConnectionStats _ _ on_failure => report_failure on_failure e
  | _ => []
  end.

(** What sets the client or the application in motion. *)
Inductive Trigger : Type :=
| TCall (op : Op)
| TRunTask
| TDestroy
| TSuccess (x : Call)
| TFailure (x : Call) (e : Exception)
| TFailureCode (x : Call) (code : nat).

Record World : Type := mkWorld {
  client : P2PClient;
  (** the client object has not been destroyed *)
  alive : bool;
  (** the requests the collaborators have not answered yet *)
  pending : list Call;
  (** what happened so far, oldest first: each trigger with the callbacks of
      the application that it invoked *)
  history : list (Trigger * list Invocation)
}.

Definition World_new (self : ClientRef) (configuration : P2PClientConfiguration)
  : World :=
  {| client := (P2PClient_new self configuration).1; alive := true;
     pending := []; history := [] |}.

Inductive world_step : World → World → Prop :=
| step_call w op c' out :
    alive w = true →
    exec op (client w) = Some (c', out) →
    world_step w
      {| client := c'; alive := true;
         pending := pending w ++ filter (λ x, is_request x = true) out;
         history := history w ++ [(TCall op, [])] |}
| step_run_task w i c' :
    run_next (client w) = Some (i, c') →
    world_step w
      {| client := c'; alive := alive w; pending := pending w;
         history := history w ++ [(TRunTask, [i])] |}
| step_destroy w :
    world_step w
      {| client := client w; alive := false; pending := pending w;
         history := history w ++ [(TDestroy, [])] |}
| step_success w before x after :
    pending w = before ++ x :: after →
    world_step w
      {| client := client w; alive := alive w; pending := before ++ after;
         history := history w ++ [(TSuccess x, reply_success (alive w) x)] |}
| step_failure w before x after e :
    pending w = before ++ x :: after →
    world_step w
      {| client := client w; alive := alive w; pending := before ++ after;
         history := history w ++ [(TFailure x e, reply_failure x e)] |}
| step_failure_code w before x after code :
    pending w = before ++ x :: after →
    world_step w
      {| client := client w; alive := alive w; pending := before ++ after;
         history :=
           history w ++ [(TFailureCode x code, signaling_failure x code)] |}.

Inductive reachable_world : World → Prop :=
| reachable_world_new self configuration :
    reachable_world (World_new self configuration)
| reachable_world_step w w' :
    reachable_world w → world_step w w' → reachable_world w'.

(** The [Publish] call that hands the continuation [k] to a channel. *)
Definition publish_of (k : PublishContinuation) (on_failure : option Callback)
  : Op :=
  OpPublish (captured_target_id k) (captured_stream k)
    (captured_on_success k) on_failure.

(** The continuation that delivers [publication] through [on_success]. *)
Definition continuation_of (on_success : Callback) (publication : P2PPublication)
  : PublishContinuation :=
  {| captured_on_success := Some on_success;
     captured_weak_this := publication_client publication;
     captured_target_id := publication_target_id publication;
     captured_stream := publication_stream publication |}.

(** Every publish request that waits for its answer was made by a [Publish]
    call of the history, and every publication the application was given
    answers such a request. *)
Record world_inv (w : World) : Prop := {
  inv_pending :
    ∀ pcc stream k on_failure,
      PccPublish pcc stream k on_failure ∈ pending w →
      captured_stream k = stream
      ∧ ∃ j, history w !! j = Some (TCall (publish_of k on_failure), []);
  inv_history :
    ∀ i trigger invocations on_success publication,
      history w !! i = Some (trigger, invocations) →
      InvokePublication on_success publication ∈ invocations →
      ∃ pcc on_failure,
        trigger =
          TSuccess (PccPublish pcc (publication_stream publication)
                      (continuation_of on_success publication) on_failure)
        ∧ ∃ j, j < i
               ∧ history w !! j
                 = Some (TCall (publish_of
                                  (continuation_of on_success publication)
                                  on_failure), [])
}.

(** ** A history for the examples *)

(** The client allows bob, publishes stream 5 to bob, and the
    channel reports success. *)
Definition bob_request : Call :=
  PccPublish 0 5
    {| captured_on_success := Some 7; captured_weak_this := 1;
       captured_target_id := "bob"; captured_stream := 5 |}
    (Some 8).

Definition bob_allowed : World :=
  {| client :=
       state_of (AddAllowedRemoteId "bob"
         (P2PClient_new 1 (mkP2PClientConfiguration [] kAll)).1);
     alive := true;
     pending := [];
     history := [(TCall (OpAddAllowedRemoteId "bob"), [])] |}.

Definition bob_publishing : World :=
  {| client :=
       state_of (Publish "bob" 5 (Some 7) (Some 8) (client bob_allowed));
     alive := true;
     pending := [bob_request];
     history := history bob_allowed
       ++ [(TCall (OpPublish "bob" 5 (Some 7) (Some 8)), [])] |}.

Definition bob_published : World :=
  {| client := client bob_publishing;
     alive := true;
     pending := [];
     history := history bob_publishing
       ++ [(TSuccess bob_request,
            [InvokePublication 7
               {| publication_client := 1; publication_target_id := "bob";
                  publication_stream := 5 |}])] |}.

(** ** Notions of the properties of the whole client *)

(** How many times an observer is registered. *)
Definition count_observer (o : Observer) (v : list Observer) : nat :=
  length (filter (λ x, x = o) v).

(** The entry points that write [allowed_remote_ids_]. *)
Definition writes_allowed (op : Op) : bool :=
  match op with
  | OpAddAllowedRemoteId _ | OpRemoveAllowedRemoteId _ _ _ | OpStop _ _ _ => true
  | _ => false
  end.

(** The entry points that write [observers_]. *)
Definition writes_observers (op : Op) : bool :=
  match op with
  | OpAddObserver _ | OpRemoveObserver _ => true
  | _ => false
  end.

(** The entry points that look up a channel, and so may create one. *)
Definition uses_channel (op : Op) : bool :=
  match op with
  | OpRemoveAllowedRemoteId _ _ _ | OpPublish _ _ _ _ | OpUnpublish _ _ _ _
  | OpSend _ _ _ _ | OpStop _ _ _ | OpGetConnectionStats _ _ _
  | OpOnMessage _ _ => true
  | _ => false
  end.

(** The channel a call is made on. *)
Definition channel_of (x : Call) : option Pcc :=
  match x with
  | PccNew pcc _ _ _ | PccAddObserver pcc _ | PccPublish pcc _ _ _
  | PccUnpublish pcc _ _ _ | PccSend pcc _ _ _ | PccStop pcc _ _
  | PccGetConnectionStats pcc _ _ | PccOnIncomingSignalingMessage pcc _ =>
      Some pcc
  | _ => None
  end.

(** The failures the client raises by itself. *)
Definition local_failure (e : Exception) : Prop :=
  (Exception.Type_ e = kP2PClientRemoteNotAllowed
   ∧ (Exception.Message e
      = "Publishing a stream cannot be done since the remote user is not allowed."
      ∨ Exception.Message e
        = "Sending a message cannot be done since the remote user is not allowed."))
  ∨ (Exception.Type_ e = kP2PClientRemoteNotExisted
     ∧ Exception.Message e = "Trying to delete non-existed remote id.").

(** A client with sessions for eve and bob, of whom only eve is allowed. *)
Definition client_with_two_sessions : P2PClient :=
  state_of (GetConnectionStats "bob" None None
              (state_of (Send "eve" "hi" None None client_allowing_eve))).

(** ** Threads *)












(** * Properties *)

(** ** The close notification *)

(** The characters of the payload, as their codes. *)
Lemma chat_closed_codes :
  map Ascii.nat_of_ascii (String.list_ascii_of_string chat_closed)
  = [123; 34; 116; 121; 112; 101; 34; 58; 34; 99; 104; 97; 116; 45; 99; 108;
     111; 115; 101; 100; 34; 125].
Proof. reflexivity. Qed.

(** ** Basic facts *)

Lemma found_true x v : found x v = true ↔ x ∈ v.
Proof. unfold found. apply bool_decide_eq_true. Qed.

Lemma found_false x v : found x v = false ↔ x ∉ v.
Proof. unfold found. apply bool_decide_eq_false. Qed.

Lemma erase_remove_spec x y v : y ∈ erase_remove x v ↔ y ∈ v ∧ y ≠ x.
Proof. unfold erase_remove. rewrite list_elem_of_filter. tauto. Qed.

Lemma erase_remove_gone x v : x ∉ erase_remove x v.
Proof. rewrite erase_remove_spec. tauto. Qed.

Lemma erase_remove_NoDup x v : NoDup v → NoDup (erase_remove x v).
Proof. apply NoDup_filter. Qed.

Lemma GetPeerConnectionChannel_existing c target_id pcc :
  pc_channels_ c !! target_id = Some pcc →
  GetPeerConnectionChannel target_id c = (pcc, c, []).
Proof. intros H. unfold_M. rewrite H. reflexivity. Qed.

Lemma GetPeerConnectionChannel_absent c target_id :
  pc_channels_ c !! target_id = None →
  GetPeerConnectionChannel target_id c =
    (next_pcc c, with_new_channel target_id c,
     [PccNew (next_pcc c) (pcc_configuration c) (local_id_ c) target_id;
      PccAddObserver (next_pcc c) (this c)]).
Proof.
  intros H. unfold with_new_channel, pcc_configuration. unfold_M.
  rewrite H. simpl. unfold set_pc_channels, map_insert_pair. simpl.
  rewrite H. reflexivity.
Qed.

Lemma GetPeerConnectionChannel_cases c target_id :
  (∃ pcc, pc_channels_ c !! target_id = Some pcc ∧
          GetPeerConnectionChannel target_id c = (pcc, c, []))
  ∨ (pc_channels_ c !! target_id = None ∧
     GetPeerConnectionChannel target_id c =
       (next_pcc c, with_new_channel target_id c,
        [PccNew (next_pcc c) (pcc_configuration c) (local_id_ c) target_id;
         PccAddObserver (next_pcc c) (this c)])).
Proof.
  destruct (pc_channels_ c !! target_id) as [pcc|] eqn:H.
  - left. exists pcc. split; [done|]. by apply GetPeerConnectionChannel_existing.
  - right. split; [done|]. by apply GetPeerConnectionChannel_absent.
Qed.

Lemma GetPeerConnectionChannel_lookup c target_id :
  pc_channels_ (state_of (GetPeerConnectionChannel target_id c)) !! target_id
  = Some (value_of (GetPeerConnectionChannel target_id c)).
Proof.
  destruct (GetPeerConnectionChannel_cases c target_id) as [(pcc & H & ->)|[H ->]].
  - done.
  - unfold state_of, value_of, with_new_channel. simpl. apply lookup_insert_eq.
Qed.

Lemma GetPeerConnectionChannel_lookup_ne c target_id other :
  other ≠ target_id →
  pc_channels_ (state_of (GetPeerConnectionChannel target_id c)) !! other
  = pc_channels_ c !! other.
Proof.
  intros Hne.
  destruct (GetPeerConnectionChannel_cases c target_id) as [(pcc & H & ->)|[H ->]].
  - done.
  - unfold state_of, with_new_channel. simpl. by apply lookup_insert_ne.
Qed.

Lemma GetPeerConnectionChannel_allowed c target_id :
  allowed_remote_ids_ (state_of (GetPeerConnectionChannel target_id c))
  = allowed_remote_ids_ c.
Proof.
  by destruct (GetPeerConnectionChannel_cases c target_id)
    as [(pcc & H & ->)|[H ->]].
Qed.

Lemma GetPeerConnectionChannel_event_queue c target_id :
  event_queue_ (state_of (GetPeerConnectionChannel target_id c))
  = event_queue_ c.
Proof.
  by destruct (GetPeerConnectionChannel_cases c target_id)
    as [(pcc & H & ->)|[H ->]].
Qed.

Lemma GetPeerConnectionChannel_observers c target_id :
  observers_ (state_of (GetPeerConnectionChannel target_id c)) = observers_ c.
Proof.
  by destruct (GetPeerConnectionChannel_cases c target_id)
    as [(pcc & H & ->)|[H ->]].
Qed.

(** The membership check of [Publish], [Send] and [RemoveAllowedRemoteId],
    when it fails: the client is left as it was, but for the task posted when a
    failure callback was given. *)
Lemma Publish_closed c target_id stream on_success on_failure :
  target_id ∉ allowed_remote_ids_ c →
  Publish target_id stream on_success on_failure c =
    post_failure on_failure kP2PClientRemoteNotAllowed
      "Publishing a stream cannot be done since the remote user is not allowed." c.
Proof.
  intros H%found_false. unfold Publish, mbind, M_bind, get. rewrite H. simpl.
  by destruct (post_failure _ _ _ c) as [[[] ?] ?].
Qed.

Lemma Send_closed c target_id message on_success on_failure :
  target_id ∉ allowed_remote_ids_ c →
  Send target_id message on_success on_failure c =
    post_failure on_failure kP2PClientRemoteNotAllowed
      "Sending a message cannot be done since the remote user is not allowed." c.
Proof.
  intros H%found_false. unfold Send, mbind, M_bind, get. rewrite H. simpl.
  by destruct (post_failure _ _ _ c) as [[[] ?] ?].
Qed.

Lemma RemoveAllowedRemoteId_closed c target_id on_success on_failure :
  target_id ∉ allowed_remote_ids_ c →
  RemoveAllowedRemoteId target_id on_success on_failure c =
    post_failure on_failure kP2PClientRemoteNotExisted
      "Trying to delete non-existed remote id." c.
Proof.
  intros H%found_false. unfold RemoveAllowedRemoteId, mbind, M_bind, get.
  rewrite H. simpl. by destruct (post_failure _ _ _ c) as [[[] ?] ?].
Qed.

Lemma RemoveAllowedRemoteId_open c target_id on_success on_failure :
  target_id ∈ allowed_remote_ids_ c →
  RemoveAllowedRemoteId target_id on_success on_failure c =
    Stop target_id on_success on_failure c.
Proof.
  intros H%found_true. unfold RemoveAllowedRemoteId, mbind, M_bind, get.
  rewrite H. simpl. by destruct (Stop _ _ _ c) as [[[] ?] ?].
Qed.

Lemma post_failure_some c on_failure type message :
  post_failure (Some on_failure) type message c =
    (tt, set_event_queue
           (λ q, q ++ [TaskFailure on_failure (Exception.new type message)]) c,
     []).
Proof. reflexivity. Qed.

Lemma drain_posted c t :
  (drain (set_event_queue (λ q, q ++ [t]) c)).1 = (drain c).1 ++ [run_task t].
Proof. unfold drain. simpl. by rewrite map_app. Qed.

(** C2.  For an identity that is not in the list of allowed remote
    identities, [Publish] and [Send] make no call on a collaborator, create no
    entry in the channel map and leave every member of the client as it was;
    all they do is post one task to the event queue.  When the queue runs that
    task, the failure callback that was supplied is invoked with an exception
    of kind RemoteNotAllowed; for [Send] its message is the sentence
    "Sending a message cannot be done since the remote user is not allowed." *)
Theorem Publish_Send_not_allowed
    (c : P2PClient) (target_id message : string) (stream : Stream)
    (on_success : option Callback) (on_failure : Callback) :
  target_id ∉ allowed_remote_ids_ c →
  (∃ e,
      Publish target_id stream on_success (Some on_failure) c
        = (tt, set_event_queue (λ q, q ++ [TaskFailure on_failure e]) c, [])
      ∧ pc_channels_
          (state_of (Publish target_id stream on_success (Some on_failure) c))
        = pc_channels_ c
      ∧ (drain (state_of
                  (Publish target_id stream on_success (Some on_failure) c))).1
        = (drain c).1 ++ [InvokeFailure on_failure e]
      ∧ Exception.Type_ e = kP2PClientRemoteNotAllowed)
  ∧ (∃ e,
      Send target_id message on_success (Some on_failure) c
        = (tt, set_event_queue (λ q, q ++ [TaskFailure on_failure e]) c, [])
      ∧ pc_channels_
          (state_of (Send target_id message on_success (Some on_failure) c))
        = pc_channels_ c
      ∧ (drain (state_of
                  (Send target_id message on_success (Some on_failure) c))).1
        = (drain c).1 ++ [InvokeFailure on_failure e]
      ∧ Exception.Type_ e = kP2PClientRemoteNotAllowed
      ∧ Exception.Message e =
          "Sending a message cannot be done since the remote user is not allowed.").
Proof.
  intros Hnot. split.
  - eexists. rewrite (Publish_closed _ _ _ _ _ Hnot), post_failure_some.
    split; [reflexivity|]. split; [reflexivity|]. split; [|reflexivity].
    unfold state_of. simpl fst. simpl snd. apply drain_posted.
  - eexists. rewrite (Send_closed _ _ _ _ _ Hnot), post_failure_some.
    split; [reflexivity|]. split; [reflexivity|].
    split; [|split; reflexivity].
    unfold state_of. simpl fst. simpl snd. apply drain_posted.
Qed.

Lemma Publish_Send_not_allowed_witness :
  let c := (P2PClient_new 1 (mkP2PClientConfiguration [] kAll)).1 in
  (("carol" ∉ allowed_remote_ids_ c)
   ∧ ∃ e, Send "carol" "hi" (Some 7) (Some 8) c
            = (tt, set_event_queue (λ q, q ++ [TaskFailure 8 e]) c, [])
          ∧ Exception.Type_ e = kP2PClientRemoteNotAllowed).
Proof.
  assert (H : "carol" ∉ allowed_remote_ids_
                (P2PClient_new 1 (mkP2PClientConfiguration [] kAll)).1)
    by (simpl; apply not_elem_of_nil).
  split; [exact H|].
  destruct (Publish_Send_not_allowed _ "carol" "hi" 3 (Some 7) 8 H)
    as [_ (e & Heq & _ & _ & Hty & _)].
  exists e. split; [exact Heq | exact Hty].
Defined.

(** ** Stop *)

Lemma Stop_unfold c target_id on_success on_failure :
  Stop target_id on_success on_failure c =
    (tt,
     set_allowed_remote_ids (erase_remove target_id)
       (set_pc_channels (delete target_id)
          (state_of (GetPeerConnectionChannel target_id c))),
     calls_of (GetPeerConnectionChannel target_id c)
       ++ [PccStop (value_of (GetPeerConnectionChannel target_id c))
             on_success on_failure]).
Proof.
  unfold Stop, mbind, M_bind, modify, call, state_of, calls_of, value_of.
  destruct (GetPeerConnectionChannel target_id c) as [[pcc c1] out1]. reflexivity.
Qed.

Lemma Stop_channel_gone c target_id on_success on_failure :
  pc_channels_ (state_of (Stop target_id on_success on_failure c)) !! target_id
  = None.
Proof. rewrite Stop_unfold. unfold state_of. simpl. apply lookup_delete_eq. Qed.

Lemma Stop_not_allowed c target_id on_success on_failure :
  target_id ∉
    allowed_remote_ids_ (state_of (Stop target_id on_success on_failure c)).
Proof. rewrite Stop_unfold. unfold state_of. simpl. apply erase_remove_gone. Qed.

Lemma Stop_other_channels c target_id on_success on_failure other :
  other ≠ target_id →
  pc_channels_ (state_of (Stop target_id on_success on_failure c)) !! other
  = pc_channels_ c !! other.
Proof.
  intros Hne. rewrite Stop_unfold. unfold state_of at 1. simpl.
  rewrite lookup_delete_ne by done.
  by apply GetPeerConnectionChannel_lookup_ne.
Qed.

Lemma Stop_other_allowed c target_id on_success on_failure other :
  other ≠ target_id →
  other ∈ allowed_remote_ids_ (state_of (Stop target_id on_success on_failure c))
  ↔ other ∈ allowed_remote_ids_ c.
Proof.
  intros Hne. rewrite Stop_unfold. unfold state_of at 1. simpl.
  rewrite erase_remove_spec, GetPeerConnectionChannel_allowed. tauto.
Qed.

(** The calls [Stop] makes: the stop request goes to the channel of the
    session; it comes last, after the calls that create the channel when
    there was none. *)
Lemma Stop_calls c target_id on_success on_failure :
  (∃ pcc, pc_channels_ c !! target_id = Some pcc ∧
     calls_of (Stop target_id on_success on_failure c)
     = [PccStop pcc on_success on_failure])
  ∨ (pc_channels_ c !! target_id = None ∧
     calls_of (Stop target_id on_success on_failure c)
     = [PccNew (next_pcc c) (pcc_configuration c) (local_id_ c) target_id;
        PccAddObserver (next_pcc c) (this c);
        PccStop (next_pcc c) on_success on_failure]).
Proof.
  rewrite Stop_unfold.
  destruct (GetPeerConnectionChannel_cases c target_id) as [(pcc & H & ->)|[H ->]].
  - left. by exists pcc.
  - by right.
Qed.

(** ** OnMessage *)

Lemma OnMessage_closed c message remote_id :
  remote_id ∉ allowed_remote_ids_ c →
  OnMessage message remote_id c =
    (tt, c,
     [Log LS_WARNING "Chat cannot be setup since the remote user is not allowed."]).
Proof.
  intros H%found_false. unfold OnMessage, mbind, M_bind, get. by rewrite H.
Qed.

Lemma OnMessage_closing_unknown c remote_id :
  remote_id ∈ allowed_remote_ids_ c →
  pc_channels_ c !! remote_id = None →
  OnMessage chat_closed remote_id c =
    (tt, c, [Log LS_WARNING "Non-existed chat cannot be stopped."]).
Proof.
  intros H%found_true Hnone.
  unfold OnMessage, IsPeerConnectionChannelCreated, mbind, M_bind, get.
  rewrite H. rewrite bool_decide_eq_true_2 by done. simpl.
  by rewrite Hnone.
Qed.

Lemma OnMessage_dispatch c message remote_id :
  remote_id ∈ allowed_remote_ids_ c →
  ¬ (message = chat_closed ∧ pc_channels_ c !! remote_id = None) →
  OnMessage message remote_id c =
    (tt, state_of (GetPeerConnectionChannel remote_id c),
     calls_of (GetPeerConnectionChannel remote_id c)
       ++ [PccOnIncomingSignalingMessage
             (value_of (GetPeerConnectionChannel remote_id c)) message]).
Proof.
  intros H%found_true Hnot.
  unfold OnMessage, IsPeerConnectionChannelCreated, mbind, M_bind, get, call,
    mret, M_ret, state_of, calls_of, value_of.
  rewrite H. cbn [negb].
  destruct (GetPeerConnectionChannel remote_id c) as [[pcc c1] out1] eqn:Hget.
  case_bool_decide as Hmsg.
  - destruct (pc_channels_ c !! remote_id) as [pcc'|] eqn:Hlook.
    + simpl. by rewrite Hget.
    + exfalso. by apply Hnot.
  - simpl. by rewrite Hget.
Qed.

(** C5.  [OnMessage], for a message from [remote_id]:
    when [remote_id] is not an allowed remote identity, the client is left as
    it was and nothing but the logger is called;
    when it is allowed, the message is the close notification and the channel
    map has no entry for [remote_id], the same: no entry is created;
    otherwise the channel of [remote_id] is looked up, created if absent, and
    the message is handed to it: the last call is the delivery of this
    message to the channel that the map then holds for [remote_id]. *)
Theorem OnMessage_routes (c : P2PClient) (message remote_id : string) :
  (remote_id ∉ allowed_remote_ids_ c →
     ∃ text, OnMessage message remote_id c = (tt, c, [Log LS_WARNING text]))
  ∧ (remote_id ∈ allowed_remote_ids_ c →
     message = chat_closed →
     pc_channels_ c !! remote_id = None →
     ∃ text, OnMessage message remote_id c = (tt, c, [Log LS_WARNING text]))
  ∧ (remote_id ∈ allowed_remote_ids_ c →
     ¬ (message = chat_closed ∧ pc_channels_ c !! remote_id = None) →
     ∃ pcc,
       GetPeerConnectionChannel remote_id c
       = (pcc, state_of (OnMessage message remote_id c),
          calls_of (GetPeerConnectionChannel remote_id c))
       ∧ calls_of (OnMessage message remote_id c)
         = calls_of (GetPeerConnectionChannel remote_id c)
             ++ [PccOnIncomingSignalingMessage pcc message]
       ∧ pc_channels_ (state_of (OnMessage message remote_id c)) !! remote_id
         = Some pcc).
Proof.
  split; [|split].
  - intros H. eexists. by apply OnMessage_closed.
  - intros H -> Hnone. eexists. by apply OnMessage_closing_unknown.
  - intros H Hnot. exists (value_of (GetPeerConnectionChannel remote_id c)).
    rewrite (OnMessage_dispatch _ _ _ H Hnot).
    unfold state_of at 1, calls_of at 2, state_of at 1. simpl.
    split; [|split; [done|apply GetPeerConnectionChannel_lookup]].
    by destruct (GetPeerConnectionChannel remote_id c) as [[? ?] ?].
Qed.

Lemma OnMessage_routes_witness :
  (∃ text, OnMessage "hello" "mallory" client_allowing_eve
           = (tt, client_allowing_eve, [Log LS_WARNING text]))
  ∧ (∃ text, OnMessage chat_closed "eve" client_allowing_eve
           = (tt, client_allowing_eve, [Log LS_WARNING text]))
  ∧ (∃ pcc, pc_channels_ (state_of (OnMessage "hello" "eve" client_allowing_eve))
              !! "eve" = Some pcc).
Proof.
  split; [|split].
  - destruct (OnMessage_routes client_allowing_eve "hello" "mallory")
      as (H & _ & _).
    apply H. by apply (bool_decide_eq_false_1 _).
  - destruct (OnMessage_routes client_allowing_eve chat_closed "eve")
      as (_ & H & _).
    apply H; [by apply (bool_decide_eq_true_1 _) | reflexivity | reflexivity].
  - destruct (OnMessage_routes client_allowing_eve "hello" "eve")
      as (_ & _ & H).
    destruct H as (pcc & _ & _ & H).
    + by apply (bool_decide_eq_true_1 _).
    + intros [Hmsg _]. discriminate Hmsg.
    + by exists pcc.
Defined.

(** ** RemoveAllowedRemoteId *)

(** C6.  [RemoveAllowedRemoteId] for an identity that is not an allowed remote
    identity makes no call, leaves the list of allowed identities and the
    channel map as they were, and posts one task, which invokes the failure
    callback with an exception of kind RemoteNotExisted.  For an identity that
    is allowed it is [Stop]: the stop request goes to the channel of the
    session, and afterwards the identity is in neither the channel map nor
    the list of allowed identities. *)
Theorem RemoveAllowedRemoteId_spec
    (c : P2PClient) (id : string) (on_success on_failure : option Callback) :
  let r := RemoveAllowedRemoteId id on_success on_failure c in
  (id ∉ allowed_remote_ids_ c →
     ∀ f, on_failure = Some f →
       ∃ e, r = (tt, set_event_queue (λ q, q ++ [TaskFailure f e]) c, [])
            ∧ allowed_remote_ids_ (state_of r) = allowed_remote_ids_ c
            ∧ pc_channels_ (state_of r) = pc_channels_ c
            ∧ (drain (state_of r)).1 = (drain c).1 ++ [InvokeFailure f e]
            ∧ Exception.Type_ e = kP2PClientRemoteNotExisted)
  ∧ (id ∈ allowed_remote_ids_ c →
       r = Stop id on_success on_failure c
       ∧ pc_channels_ (state_of r) !! id = None
       ∧ (id ∉ allowed_remote_ids_ (state_of r))
       ∧ (∀ pcc, pc_channels_ c !! id = Some pcc →
            calls_of r = [PccStop pcc on_success on_failure])).
Proof.
  intros r. subst r. split.
  - intros Hnot f ->. eexists.
    rewrite (RemoveAllowedRemoteId_closed _ _ _ _ Hnot), post_failure_some.
    split; [reflexivity|]. split; [reflexivity|]. split; [reflexivity|].
    split; [|reflexivity].
    unfold state_of. simpl fst. simpl snd. apply drain_posted.
  - intros Hin. rewrite (RemoveAllowedRemoteId_open _ _ _ _ Hin).
    split; [done|]. split; [apply Stop_channel_gone|].
    split; [apply Stop_not_allowed|].
    intros pcc Hpcc.
    destruct (Stop_calls c id on_success on_failure) as [(p & Hp & ->)|[Hp _]];
      congruence.
Qed.

Lemma RemoveAllowedRemoteId_spec_witness :
  (∃ e, RemoveAllowedRemoteId "dave" (Some 1) (Some 2) client_allowing_eve
        = (tt, set_event_queue (λ q, q ++ [TaskFailure 2 e]) client_allowing_eve,
           [])
        ∧ Exception.Type_ e = kP2PClientRemoteNotExisted)
  ∧ pc_channels_
      (state_of (RemoveAllowedRemoteId "eve" (Some 1) (Some 2)
                   (state_of (Send "eve" "hi" None None client_allowing_eve))))
      !! "eve" = None.
Proof.
  split.
  - destruct (RemoveAllowedRemoteId_spec client_allowing_eve "dave"
                (Some 1) (Some 2)) as [H _].
    destruct (H ltac:(by apply (bool_decide_eq_false_1 _)) 2 eq_refl)
      as (e & He & _ & _ & _ & Hty).
    by exists e.
  - apply (RemoveAllowedRemoteId_spec
             (state_of (Send "eve" "hi" None None client_allowing_eve))
             "eve" (Some 1) (Some 2)).
    by apply (bool_decide_eq_true_1 _).
Defined.

(** ** The operations on an allowed identity *)

Lemma Publish_open c target_id stream on_success on_failure :
  target_id ∈ allowed_remote_ids_ c →
  Publish target_id stream on_success on_failure c =
    (tt, state_of (GetPeerConnectionChannel target_id c),
     calls_of (GetPeerConnectionChannel target_id c)
       ++ [PccPublish (value_of (GetPeerConnectionChannel target_id c)) stream
             {| captured_on_success := on_success;
                captured_weak_this := this c;
                captured_target_id := target_id;
                captured_stream := stream |}
             on_failure]).
Proof.
  intros H%found_true.
  unfold Publish, mbind, M_bind, get, call, state_of, calls_of, value_of.
  rewrite H. cbn [negb].
  by destruct (GetPeerConnectionChannel target_id c) as [[pcc c1] out1].
Qed.

Lemma Send_open c target_id message on_success on_failure :
  target_id ∈ allowed_remote_ids_ c →
  Send target_id message on_success on_failure c =
    (tt, state_of (GetPeerConnectionChannel target_id c),
     calls_of (GetPeerConnectionChannel target_id c)
       ++ [PccSend (value_of (GetPeerConnectionChannel target_id c)) message
             on_success on_failure]).
Proof.
  intros H%found_true.
  unfold Send, mbind, M_bind, get, call, state_of, calls_of, value_of.
  rewrite H. cbn [negb].
  by destruct (GetPeerConnectionChannel target_id c) as [[pcc c1] out1].
Qed.

Lemma GetConnectionStats_unfold c target_id on_success on_failure :
  GetConnectionStats target_id on_success on_failure c =
    (tt, state_of (GetPeerConnectionChannel target_id c),
     calls_of (GetPeerConnectionChannel target_id c)
       ++ [PccGetConnectionStats
             (value_of (GetPeerConnectionChannel target_id c))
             on_success on_failure]).
Proof.
  unfold GetConnectionStats, mbind, M_bind, call, state_of, calls_of, value_of.
  by destruct (GetPeerConnectionChannel target_id c) as [[pcc c1] out1].
Qed.

Lemma Unpublish_unfold c target_id stream on_success on_failure :
  Unpublish target_id stream on_success on_failure c =
    (tt, state_of (GetPeerConnectionChannel target_id c),
     calls_of (GetPeerConnectionChannel target_id c)
       ++ [PccUnpublish (value_of (GetPeerConnectionChannel target_id c))
             stream on_success on_failure]).
Proof.
  unfold Unpublish, mbind, M_bind, call, state_of, calls_of, value_of.
  by destruct (GetPeerConnectionChannel target_id c) as [[pcc c1] out1].
Qed.

Lemma AddAllowedRemoteId_present c target_id :
  target_id ∈ allowed_remote_ids_ c →
  AddAllowedRemoteId target_id c =
    (tt, c, [Log LS_INFO "Adding duplicated remote id."]).
Proof.
  intros H%found_true. unfold AddAllowedRemoteId, mbind, M_bind, get.
  by rewrite H.
Qed.

Lemma AddAllowedRemoteId_absent c target_id :
  target_id ∉ allowed_remote_ids_ c →
  AddAllowedRemoteId target_id c =
    (tt, set_allowed_remote_ids (λ v, v ++ [target_id]) c, []).
Proof.
  intros H%found_false. unfold AddAllowedRemoteId, mbind, M_bind, get.
  by rewrite H.
Qed.

Lemma AddAllowedRemoteId_allowed c target_id :
  target_id ∈ allowed_remote_ids_ (state_of (AddAllowedRemoteId target_id c)).
Proof.
  destruct (decide (target_id ∈ allowed_remote_ids_ c)) as [H|H].
  - by rewrite AddAllowedRemoteId_present.
  - rewrite AddAllowedRemoteId_absent by done. unfold state_of. simpl.
    apply elem_of_app. right. apply list_elem_of_singleton. done.
Qed.

(** ** Invariants of the reachable states *)

Lemma client_inv_new self configuration :
  client_inv (P2PClient_new self configuration).1.
Proof.
  split; simpl.
  - apply NoDup_nil_2.
  - intros id pcc H. by rewrite lookup_empty in H.
  - intros id1 id2 pcc H. by rewrite lookup_empty in H.
Qed.

Lemma client_inv_event_queue f c :
  client_inv c → client_inv (set_event_queue f c).
Proof. intros [H1 H2 H3]. by split. Qed.

Lemma client_inv_observers f c :
  client_inv c → client_inv (set_observers f c).
Proof. intros [H1 H2 H3]. by split. Qed.

Lemma client_inv_GetPeerConnectionChannel target_id c :
  client_inv c → client_inv (state_of (GetPeerConnectionChannel target_id c)).
Proof.
  intros [H1 H2 H3].
  destruct (GetPeerConnectionChannel_cases c target_id) as [(pcc & H & ->)|[H ->]].
  - by split.
  - unfold state_of, with_new_channel. split; simpl.
    + done.
    + intros id pcc. rewrite lookup_insert. case_decide.
      * intros [= <-]. lia.
      * intros Hl%H2. lia.
    + intros id1 id2 pcc. rewrite !lookup_insert.
      repeat case_decide; subst.
      * done.
      * intros [= <-] Hl%H2. lia.
      * intros Hl%H2 [= <-]. lia.
      * apply H3.
Qed.

Lemma client_inv_erase target_id c :
  client_inv c →
  client_inv (set_allowed_remote_ids (erase_remove target_id)
                (set_pc_channels (delete target_id) c)).
Proof.
  intros [H1 H2 H3]. split; simpl.
  - by apply erase_remove_NoDup.
  - intros id pcc. rewrite lookup_delete. case_decide; [done|]. apply H2.
  - intros id1 id2 pcc. rewrite !lookup_delete.
    repeat case_decide; try done. apply H3.
Qed.

Lemma client_inv_push_back target_id c :
  target_id ∉ allowed_remote_ids_ c →
  client_inv c →
  client_inv (set_allowed_remote_ids (λ v, v ++ [target_id]) c).
Proof.
  intros Hnot [H1 H2 H3]. split; simpl; [|done|done].
  apply NoDup_app. split; [done|]. split.
  - intros x Hx ->%list_elem_of_singleton. done.
  - apply NoDup_singleton.
Qed.

Lemma client_inv_post_failure on_failure type message c :
  client_inv c → client_inv (state_of (post_failure on_failure type message c)).
Proof.
  intros H. destruct on_failure; [|done].
  rewrite post_failure_some. by apply client_inv_event_queue.
Qed.

Lemma client_inv_Stop target_id on_success on_failure c :
  client_inv c → client_inv (state_of (Stop target_id on_success on_failure c)).
Proof.
  intros H. rewrite Stop_unfold. unfold state_of at 1. simpl.
  by apply client_inv_erase, client_inv_GetPeerConnectionChannel.
Qed.

Lemma client_inv_exec op c c' out :
  client_inv c → exec op c = Some (c', out) → client_inv c'.
Proof.
  intros Hinv.
  destruct op; simpl; unfold run_unit; try (intros [= <- <-]).
  - done.
  - done.
  - destruct (decide (target_id ∈ allowed_remote_ids_ c)) as [H|H].
    + by rewrite AddAllowedRemoteId_present.
    + rewrite AddAllowedRemoteId_absent by done.
      by apply client_inv_push_back.
  - destruct (decide (target_id ∈ allowed_remote_ids_ c)) as [H|H].
    + rewrite RemoveAllowedRemoteId_open by done. by apply client_inv_Stop.
    + rewrite RemoveAllowedRemoteId_closed by done.
      by apply client_inv_post_failure.
  - destruct (decide (target_id ∈ allowed_remote_ids_ c)) as [H|H].
    + rewrite Publish_open by done.
      by apply client_inv_GetPeerConnectionChannel.
    + rewrite Publish_closed by done. by apply client_inv_post_failure.
  - rewrite Unpublish_unfold. by apply client_inv_GetPeerConnectionChannel.
  - destruct (decide (target_id ∈ allowed_remote_ids_ c)) as [H|H].
    + rewrite Send_open by done. by apply client_inv_GetPeerConnectionChannel.
    + rewrite Send_closed by done. by apply client_inv_post_failure.
  - by apply client_inv_Stop.
  - rewrite GetConnectionStats_unfold.
    by apply client_inv_GetPeerConnectionChannel.
  - by apply client_inv_observers.
  - unfold RemoveObserver.
    destruct (vector_erase _ _) as [v|]; simpl; [|done].
    intros [= <- <-]. by apply client_inv_observers.
  - destruct (decide (remote_id ∈ allowed_remote_ids_ c)) as [H|H].
    + destruct (decide (message = chat_closed ∧ pc_channels_ c !! remote_id = None))
        as [[-> Hn]|Hn].
      * by rewrite OnMessage_closing_unknown.
      * rewrite OnMessage_dispatch by done.
        by apply client_inv_GetPeerConnectionChannel.
    + by rewrite OnMessage_closed.
  - done.
  - by apply client_inv_event_queue.
Qed.

Lemma reachable_inv c : reachable c → client_inv c.
Proof.
  induction 1 as [self configuration|c op c' out _ IH Hexec|c i c' _ IH Hrun
                 |c tasks _ IH].
  - apply client_inv_new.
  - by eapply client_inv_exec.
  - unfold run_next in Hrun. destruct (event_queue_ c); [done|].
    injection Hrun as _ <-. by apply client_inv_event_queue.
  - by apply client_inv_event_queue.
Qed.

(** ** AddAllowedRemoteId *)

Lemma filter_eq_NoDup_length (x : string) (v : list string) :
  NoDup v → x ∈ v → length (filter (λ y, y = x) v) = 1.
Proof.
  induction 1 as [|y v Hy Hnd IH]; [by intros ?%not_elem_of_nil|].
  intros Hin. rewrite filter_cons. case_decide as Heq.
  - subst y. simpl. f_equal.
    destruct (filter (λ y, y = x) v) as [|z l] eqn:Hf; [done|].
    assert (Hz : z ∈ filter (λ y, y = x) v) by (rewrite Hf; left).
    apply list_elem_of_filter in Hz as [-> Hz]. done.
  - apply IH. apply elem_of_cons in Hin as [->|Hin]; done.
Qed.

(** C8.  In every reachable state, calling [AddAllowedRemoteId] twice with the
    same identity leaves the identity listed exactly once, and the second call
    changes no member of the client: it only writes a line to the log. *)
Theorem AddAllowedRemoteId_idempotent (c : P2PClient) (id : string) :
  reachable c →
  let c1 := state_of (AddAllowedRemoteId id c) in
  AddAllowedRemoteId id c1
    = (tt, c1, [Log LS_INFO "Adding duplicated remote id."])
  ∧ length (filter (λ y, y = id)
              (allowed_remote_ids_ (state_of (AddAllowedRemoteId id c1)))) = 1.
Proof.
  intros Hreach c1.
  assert (Hin : id ∈ allowed_remote_ids_ c1) by apply AddAllowedRemoteId_allowed.
  rewrite (AddAllowedRemoteId_present _ _ Hin). split; [done|].
  apply filter_eq_NoDup_length; [|done].
  apply reachable_inv.
  by apply (reachable_exec c (OpAddAllowedRemoteId id) c1
              (calls_of (AddAllowedRemoteId id c))).
Qed.

Lemma AddAllowedRemoteId_idempotent_witness :
  allowed_remote_ids_
    (state_of (AddAllowedRemoteId "bob"
       (state_of (AddAllowedRemoteId "bob"
          (P2PClient_new 1 (mkP2PClientConfiguration [] kAll)).1))))
  = ["bob"]
  ∧ length (filter (λ y, y = "bob")
       (allowed_remote_ids_
          (state_of (AddAllowedRemoteId "bob"
             (state_of (AddAllowedRemoteId "bob"
                (P2PClient_new 1 (mkP2PClientConfiguration [] kAll)).1))))))
    = 1.
Proof.
  split; [reflexivity|].
  apply (AddAllowedRemoteId_idempotent
           (P2PClient_new 1 (mkP2PClientConfiguration [] kAll)).1 "bob").
  apply reachable_new.
Defined.

(** ** One session for an identity *)

Lemma GetPeerConnectionChannel_keeps c target_id id pcc :
  pc_channels_ c !! id = Some pcc →
  pc_channels_ (state_of (GetPeerConnectionChannel target_id c)) !! id = Some pcc.
Proof.
  intros H. destruct (decide (id = target_id)) as [->|Hne].
  - by rewrite (GetPeerConnectionChannel_existing _ _ _ H).
  - by rewrite GetPeerConnectionChannel_lookup_ne.
Qed.

Lemma post_failure_state on_failure type message c :
  pc_channels_ (state_of (post_failure on_failure type message c))
  = pc_channels_ c
  ∧ allowed_remote_ids_ (state_of (post_failure on_failure type message c))
    = allowed_remote_ids_ c.
Proof. by destruct on_failure. Qed.

Lemma exec_keeps_session op c c' out id pcc :
  stops id op = false →
  exec op c = Some (c', out) →
  (pc_channels_ c !! id = Some pcc → pc_channels_ c' !! id = Some pcc)
  ∧ (id ∈ allowed_remote_ids_ c → id ∈ allowed_remote_ids_ c').
Proof.
  intros Hstops.
  destruct op; simpl in *; unfold run_unit; try (intros [= <- <-]).
  - done.
  - done.
  - destruct (decide (target_id ∈ allowed_remote_ids_ c)) as [H|H].
    + by rewrite AddAllowedRemoteId_present.
    + rewrite AddAllowedRemoteId_absent by done. unfold state_of. simpl.
      split; [done|]. intros Hin. apply elem_of_app. by left.
  - apply bool_decide_eq_false in Hstops.
    destruct (decide (target_id ∈ allowed_remote_ids_ c)) as [H|H].
    + rewrite RemoveAllowedRemoteId_open by done.
      rewrite Stop_other_channels by done. split; [done|].
      by rewrite Stop_other_allowed.
    + rewrite RemoveAllowedRemoteId_closed by done.
      destruct (post_failure_state on_failure kP2PClientRemoteNotExisted
                  "Trying to delete non-existed remote id." c) as [-> ->].
      done.
  - destruct (decide (target_id ∈ allowed_remote_ids_ c)) as [H|H].
    + rewrite Publish_open by done. unfold state_of at 1 3. simpl.
      rewrite GetPeerConnectionChannel_allowed. split; [|done].
      apply GetPeerConnectionChannel_keeps.
    + rewrite Publish_closed by done.
      by destruct (post_failure_state on_failure kP2PClientRemoteNotAllowed
        "Publishing a stream cannot be done since the remote user is not allowed."
        c) as [-> ->].
  - rewrite Unpublish_unfold. unfold state_of at 1 3. simpl.
    rewrite GetPeerConnectionChannel_allowed. split; [|done].
    apply GetPeerConnectionChannel_keeps.
  - destruct (decide (target_id ∈ allowed_remote_ids_ c)) as [H|H].
    + rewrite Send_open by done. unfold state_of at 1 3. simpl.
      rewrite GetPeerConnectionChannel_allowed. split; [|done].
      apply GetPeerConnectionChannel_keeps.
    + rewrite Send_closed by done.
      by destruct (post_failure_state on_failure kP2PClientRemoteNotAllowed
        "Sending a message cannot be done since the remote user is not allowed."
        c) as [-> ->].
  - apply bool_decide_eq_false in Hstops.
    rewrite Stop_other_channels by done. split; [done|].
    by rewrite Stop_other_allowed.
  - rewrite GetConnectionStats_unfold. unfold state_of at 1 3. simpl.
    rewrite GetPeerConnectionChannel_allowed. split; [|done].
    apply GetPeerConnectionChannel_keeps.
  - done.
  - unfold RemoveObserver.
    destruct (vector_erase _ _) as [v|]; simpl; [|done].
    by intros [= <- <-].
  - destruct (decide (remote_id ∈ allowed_remote_ids_ c)) as [H|H].
    + destruct (decide (message = chat_closed ∧ pc_channels_ c !! remote_id = None))
        as [[-> Hn]|Hn].
      * by rewrite OnMessage_closing_unknown.
      * rewrite OnMessage_dispatch by done. unfold state_of at 1 3. simpl.
        rewrite GetPeerConnectionChannel_allowed. split; [|done].
        apply GetPeerConnectionChannel_keeps.
    + by rewrite OnMessage_closed.
  - done.
  - done.
Qed.

Lemma exec_all_keeps_session ops id pcc :
  Forall (λ op, stops id op = false) ops →
  ∀ c c' out,
    exec_all ops c = Some (c', out) →
    pc_channels_ c !! id = Some pcc → id ∈ allowed_remote_ids_ c →
    pc_channels_ c' !! id = Some pcc ∧ id ∈ allowed_remote_ids_ c'.
Proof.
  induction 1 as [|op ops Hop _ IH]; intros c c' out; simpl.
  - by intros [= <- <-].
  - destruct (exec op c) as [[c1 out1]|] eqn:Hexec; [|done].
    destruct (exec_all ops c1) as [[c2 out2]|] eqn:Hall; [|done].
    intros [= <- <-] Hpcc Hin.
    destruct (exec_keeps_session _ _ _ _ id pcc Hop Hexec) as [H1 H2].
    eapply IH; eauto.
Qed.

Lemma GetPeerConnectionChannel_size c target_id :
  size (pc_channels_ (state_of (GetPeerConnectionChannel target_id c)))
  = match pc_channels_ c !! target_id with
    | Some _ => size (pc_channels_ c)
    | None => S (size (pc_channels_ c))
    end.
Proof.
  destruct (GetPeerConnectionChannel_cases c target_id)
    as [(pcc & H & ->)|[H ->]]; rewrite H; [done|].
  unfold state_of, with_new_channel. simpl. by apply map_size_insert_None.
Qed.

(** C9.  When the channel map has an entry for an identity,
    [GetPeerConnectionChannel] returns the channel of that entry, leaves the
    client as it was and calls nothing, so that the map keeps its size; the
    map holds one entry for a key at most.  After a [Publish] to an allowed
    identity, a [Send] to it goes to the channel the [Publish] went to, with
    no channel created, whatever entry points are called in between, as long
    as none of them is a [Stop] or a [RemoveAllowedRemoteId] for this
    identity. *)
Theorem session_is_reused (c : P2PClient) (id : string) :
  (∀ pcc, pc_channels_ c !! id = Some pcc →
     GetPeerConnectionChannel id c = (pcc, c, [])
     ∧ size (pc_channels_ (state_of (GetPeerConnectionChannel id c)))
       = size (pc_channels_ c))
  ∧ NoDup (map_to_list (pc_channels_ c)).*1
  ∧ (id ∈ allowed_remote_ids_ c →
     ∀ stream on_success on_failure,
     ∃ pcc k,
       last (calls_of (Publish id stream on_success on_failure c))
       = Some (PccPublish pcc stream k on_failure)
       ∧ ∀ ops c' out,
           Forall (λ op, stops id op = false) ops →
           exec_all ops (state_of (Publish id stream on_success on_failure c))
           = Some (c', out) →
           ∀ message on_success' on_failure',
             Send id message on_success' on_failure' c'
             = (tt, c', [PccSend pcc message on_success' on_failure'])).
Proof.
  split; [|split].
  - intros pcc H. split; [by apply GetPeerConnectionChannel_existing|].
    by rewrite GetPeerConnectionChannel_size, H.
  - apply NoDup_fst_map_to_list.
  - intros Hin stream on_success on_failure.
    exists (value_of (GetPeerConnectionChannel id c)). eexists.
    rewrite (Publish_open _ _ _ _ _ Hin).
    unfold calls_of at 1, state_of at 1. simpl.
    split; [apply last_snoc|].
    intros ops c' out Hops Hall message on_success' on_failure'.
    destruct (exec_all_keeps_session ops id
                (value_of (GetPeerConnectionChannel id c)) Hops _ _ _ Hall)
      as [Hpcc Hin'].
    + apply GetPeerConnectionChannel_lookup.
    + change (id ∈ allowed_remote_ids_
                (state_of (GetPeerConnectionChannel id c))).
      by rewrite GetPeerConnectionChannel_allowed.
    + rewrite (Send_open _ _ _ _ _ Hin').
      by rewrite (GetPeerConnectionChannel_existing _ _ _ Hpcc).
Qed.

Lemma session_is_reused_witness :
  ∃ pcc k,
    last (calls_of (Publish "eve" 5 (Some 1) (Some 2) client_allowing_eve))
    = Some (PccPublish pcc 5 k (Some 2))
    ∧ calls_of
        (Send "eve" "hi" (Some 3) (Some 4)
           (state_of (Publish "eve" 5 (Some 1) (Some 2) client_allowing_eve)))
      = [PccSend pcc "hi" (Some 3) (Some 4)].
Proof.
  destruct (session_is_reused client_allowing_eve "eve") as (_ & _ & H).
  destruct (H ltac:(by apply (bool_decide_eq_true_1 _)) 5 (Some 1) (Some 2))
    as (pcc & k & Hlast & Hsend).
  exists pcc, k. split; [exact Hlast|].
  by rewrite (Hsend [] _ [] (Forall_nil_2 _) eq_refl "hi" (Some 3) (Some 4)).
Defined.

(** ** Observers *)

Lemma find_if_registered (o : Observer) (v : list Observer) :
  o ∈ v →
  ∃ before after,
    v = before ++ o :: after ∧ (o ∉ before)
    ∧ find_if (λ x, bool_decide (o = x)) v = length before.
Proof.
  induction v as [|x v IH]; [by intros ?%not_elem_of_nil|].
  intros Hin. simpl. case_bool_decide as Heq.
  - subst x. exists [], v. split; [done|]. split; [apply not_elem_of_nil|done].
  - apply elem_of_cons in Hin as [->|Hin]; [done|].
    destruct (IH Hin) as (before & after & -> & Hnot & ->).
    exists (x :: before), after. split; [done|]. split; [|done].
    intros [->|?]%elem_of_cons; done.
Qed.

Lemma find_if_unregistered (o : Observer) (v : list Observer) :
  o ∉ v → find_if (λ x, bool_decide (o = x)) v = length v.
Proof.
  induction v as [|x v IH]; [done|].
  intros Hnot. simpl. case_bool_decide as Heq.
  - subst x. exfalso. apply Hnot. left.
  - f_equal. apply IH. intros Hin. apply Hnot. by right.
Qed.

(** C10.  [RemoveObserver] for an observer that is registered: the search finds
    the first entry with this address, that one entry is erased and every
    other entry stays, in its place.  For an observer that is not registered
    the search returns the end of the vector, and erasing there has no defined
    behaviour.  The search returns the end of the vector in that case only. *)
Theorem RemoveObserver_registered (c : P2PClient) (observer : Observer) :
  (observer ∈ observers_ c →
     ∃ before after,
       observers_ c = before ++ observer :: after
       ∧ (observer ∉ before)
       ∧ RemoveObserver observer c
         = Some (set_observers (λ _, before ++ after) c, []))
  ∧ (observer ∉ observers_ c → RemoveObserver observer c = None)
  ∧ (find_if (λ o, bool_decide (observer = o)) (observers_ c)
       = length (observers_ c)
     ↔ observer ∉ observers_ c).
Proof.
  split; [|split].
  - intros Hin.
    destruct (find_if_registered _ _ Hin) as (before & after & Hv & Hnot & Hf).
    exists before, after. split; [done|]. split; [done|].
    unfold RemoveObserver, vector_erase. rewrite Hf.
    rewrite decide_True by (rewrite Hv, length_app; simpl; lia). simpl.
    replace (delete (length before) (observers_ c)) with (before ++ after);
      [done|].
    rewrite Hv. symmetry. apply delete_middle.
  - intros Hnot. unfold RemoveObserver, vector_erase.
    rewrite (find_if_unregistered _ _ Hnot).
    rewrite decide_False by lia. done.
  - split.
    + intros Hf Hin.
      destruct (find_if_registered _ _ Hin) as (before & after & Hv & _ & Hf').
      rewrite Hf' in Hf. rewrite Hv, length_app in Hf. simpl in Hf. lia.
    + apply find_if_unregistered.
Qed.

Lemma RemoveObserver_registered_witness :
  let c := state_of (AddObserver 4 (state_of (AddObserver 5
             (state_of (AddObserver 4
                (P2PClient_new 1 (mkP2PClientConfiguration [] kAll)).1))))) in
  (observers_ c = [4; 5; 4])
  ∧ (∃ before after,
       observers_ c = before ++ 4 :: after
       ∧ RemoveObserver 4 c = Some (set_observers (λ _, before ++ after) c, []))
  ∧ RemoveObserver 6 c = None.
Proof.
  intros c. split; [reflexivity|].
  destruct (RemoveObserver_registered c 4) as (Hin & _ & _).
  destruct (RemoveObserver_registered c 6) as (_ & Hout & _).
  split.
  - destruct (Hin ltac:(by apply (bool_decide_eq_true_1 _)))
      as (before & after & H1 & _ & H2).
    by exists before, after.
  - apply Hout. by apply (bool_decide_eq_false_1 _).
Defined.

(** ** Sessions for identities that are not allowed *)

Lemma GetPeerConnectionChannel_creates c target_id id :
  creates id (calls_of (GetPeerConnectionChannel target_id c)) →
  id = target_id ∧ pc_channels_ c !! target_id = None.
Proof.
  intros (pcc & config & local_id & Hin).
  destruct (GetPeerConnectionChannel_cases c target_id)
    as [(p & H & Heq)|[H Heq]]; rewrite Heq in Hin; unfold calls_of in Hin;
    simpl in Hin.
  - by apply not_elem_of_nil in Hin.
  - apply elem_of_cons in Hin as [[= _ _ _ ->]|Hin]; [done|].
    apply list_elem_of_singleton in Hin. done.
Qed.

Lemma creates_snoc id out x :
  (∀ pcc config local_id, x ≠ PccNew pcc config local_id id) →
  creates id (out ++ [x]) → creates id out.
Proof.
  intros Hx (pcc & config & local_id & Hin).
  apply elem_of_app in Hin as [Hin|Hin%list_elem_of_singleton].
  - by exists pcc, config, local_id.
  - by destruct (Hx pcc config local_id).
Qed.

(** [Publish], [Send] and [OnMessage] check the list first: they create a channel for an
    allowed identity only. *)
Lemma checked_create_for_allowed_only c id :
  (∀ target_id stream on_success on_failure,
     creates id (calls_of (Publish target_id stream on_success on_failure c)) →
     id ∈ allowed_remote_ids_ c)
  ∧ (∀ target_id message on_success on_failure,
     creates id (calls_of (Send target_id message on_success on_failure c)) →
     id ∈ allowed_remote_ids_ c)
  ∧ (∀ message remote_id,
     creates id (calls_of (OnMessage message remote_id c)) →
     id ∈ allowed_remote_ids_ c).
Proof.
  split; [|split].
  - intros target_id stream on_success on_failure.
    destruct (decide (target_id ∈ allowed_remote_ids_ c)) as [H|H].
    + rewrite Publish_open by done. unfold calls_of at 1. simpl.
      intros Hc%creates_snoc; [|done].
      by apply GetPeerConnectionChannel_creates in Hc as [-> _].
    + rewrite Publish_closed by done.
      destruct on_failure; intros (? & ? & ? & Hin);
        by apply not_elem_of_nil in Hin.
  - intros target_id message on_success on_failure.
    destruct (decide (target_id ∈ allowed_remote_ids_ c)) as [H|H].
    + rewrite Send_open by done. unfold calls_of at 1. simpl.
      intros Hc%creates_snoc; [|done].
      by apply GetPeerConnectionChannel_creates in Hc as [-> _].
    + rewrite Send_closed by done.
      destruct on_failure; intros (? & ? & ? & Hin);
        by apply not_elem_of_nil in Hin.
  - intros message remote_id.
    destruct (decide (remote_id ∈ allowed_remote_ids_ c)) as [H|H].
    + destruct (decide (message = chat_closed ∧ pc_channels_ c !! remote_id = None))
        as [[-> Hn]|Hn].
      * rewrite OnMessage_closing_unknown by done.
        intros (? & ? & ? & Hin). by apply list_elem_of_singleton in Hin.
      * rewrite OnMessage_dispatch by done. unfold calls_of at 1. simpl.
        intros Hc%creates_snoc; [|done].
        by apply GetPeerConnectionChannel_creates in Hc as [-> _].
    + rewrite OnMessage_closed by done.
      intros (? & ? & ? & Hin). by apply list_elem_of_singleton in Hin.
Qed.

(** [GetConnectionStats], [Unpublish] and [Stop] do not check the list: for an
    identity without a session they create a channel, allowed or not. *)
Lemma unchecked_create c id :
  pc_channels_ c !! id = None →
  (∀ on_success on_failure,
     creates id (calls_of (GetConnectionStats id on_success on_failure c))
     ∧ pc_channels_ (state_of (GetConnectionStats id on_success on_failure c))
         !! id = Some (next_pcc c))
  ∧ (∀ stream on_success on_failure,
     creates id (calls_of (Unpublish id stream on_success on_failure c))
     ∧ pc_channels_ (state_of (Unpublish id stream on_success on_failure c))
         !! id = Some (next_pcc c))
  ∧ (∀ on_success on_failure,
     creates id (calls_of (Stop id on_success on_failure c))).
Proof.
  intros Hnone.
  assert (Hc : ∀ x, creates id
             (calls_of (GetPeerConnectionChannel id c) ++ [x])).
  { intros x. rewrite (GetPeerConnectionChannel_absent _ _ Hnone).
    exists (next_pcc c), (pcc_configuration c), (local_id_ c). left. }
  assert (Hl : pc_channels_ (state_of (GetPeerConnectionChannel id c)) !! id
               = Some (next_pcc c)).
  { rewrite (GetPeerConnectionChannel_absent _ _ Hnone).
    unfold state_of, with_new_channel. simpl. apply lookup_insert_eq. }
  split; [|split].
  - intros. rewrite GetConnectionStats_unfold. split; [apply Hc|apply Hl].
  - intros. rewrite Unpublish_unfold. split; [apply Hc|apply Hl].
  - intros. rewrite Stop_unfold. apply Hc.
Qed.

(** C1, at the call that breaks it.  A new client allows nobody.
    [GetConnectionStats] for the identity mallory creates a channel for it and
    leaves it in the channel map, and so does [Unpublish]; [Stop] creates a
    channel for it as well, and erases the entry again.  The states are
    reachable, and mallory was never an allowed remote identity. *)
Theorem unchecked_calls_create_session_for_stranger :
  let c := (P2PClient_new 1 (mkP2PClientConfiguration [] kAll)).1 in
  let config := mkPccConfiguration [] kCandidateNetworkPolicyAll in
  allowed_remote_ids_ c = [] ∧ pc_channels_ c = ∅
  ∧ GetConnectionStats "mallory" (Some 7) (Some 8) c
    = (tt, with_new_channel "mallory" c,
       [PccNew 0 config "" "mallory"; PccAddObserver 0 1;
        PccGetConnectionStats 0 (Some 7) (Some 8)])
  ∧ Unpublish "mallory" 5 (Some 7) (Some 8) c
    = (tt, with_new_channel "mallory" c,
       [PccNew 0 config "" "mallory"; PccAddObserver 0 1;
        PccUnpublish 0 5 (Some 7) (Some 8)])
  ∧ calls_of (Stop "mallory" (Some 7) (Some 8) c)
    = [PccNew 0 config "" "mallory"; PccAddObserver 0 1;
       PccStop 0 (Some 7) (Some 8)]
  ∧ pc_channels_ (with_new_channel "mallory" c) !! "mallory" = Some 0
  ∧ allowed_remote_ids_ (with_new_channel "mallory" c) = []
  ∧ reachable (with_new_channel "mallory" c).
Proof.
  intros c config.
  split; [reflexivity|]. split; [reflexivity|].
  assert (Hnone : pc_channels_ c !! "mallory" = None) by apply lookup_empty.
  assert (Hget : GetPeerConnectionChannel "mallory" c
                 = (0, with_new_channel "mallory" c,
                    [PccNew 0 config "" "mallory"; PccAddObserver 0 1]))
    by apply (GetPeerConnectionChannel_absent c "mallory" Hnone).
  split; [by rewrite GetConnectionStats_unfold, Hget|].
  split; [by rewrite Unpublish_unfold, Hget|].
  split; [by rewrite Stop_unfold, Hget|].
  split; [apply lookup_insert_eq|]. split; [reflexivity|].
  apply (reachable_exec c (OpGetConnectionStats "mallory" None None)
           (with_new_channel "mallory" c)
           (calls_of (GetConnectionStats "mallory" None None c))).
  - apply reachable_new.
  - simpl. unfold run_unit. by rewrite GetConnectionStats_unfold, Hget.
Qed.

(** ** Signaling *)

(** C4, at the call that breaks it.  [SendSignalingMessage] forwards the
    message to the signaling channel with the remote identity as destination
    and with the success callback of the caller, but with no failure
    callback: when the signaling channel fails the request, the failure
    callback of the caller is not invoked. *)
Theorem SendSignalingMessage_drops_failure_callback
    (c : P2PClient) (message remote_id : string)
    (on_success on_failure : option Callback) :
  SendSignalingMessage message remote_id on_success on_failure c
  = (tt, c, [SignalingSendMessage message remote_id on_success None])
  ∧ ∀ code,
      flat_map (λ x, signaling_failure x code)
        (calls_of (SendSignalingMessage message remote_id
                     on_success on_failure c))
      = [].
Proof. split; [reflexivity|]. intros code. reflexivity. Qed.

(** ** The client among its collaborators *)

Lemma GetPeerConnectionChannel_calls c target_id x :
  x ∈ calls_of (GetPeerConnectionChannel target_id c) → is_request x = false.
Proof.
  destruct (GetPeerConnectionChannel_cases c target_id)
    as [(p & H & ->)|[H ->]]; unfold calls_of; simpl.
  - by intros ?%not_elem_of_nil.
  - intros [->|[->|?%not_elem_of_nil]%elem_of_cons]%elem_of_cons; done.
Qed.

Lemma post_failure_calls on_failure type message c :
  calls_of (post_failure on_failure type message c) = [].
Proof. by destruct on_failure. Qed.

(** Only [Publish] makes a publish request, and the continuation it hands
    over captures the arguments of the call. *)
Lemma exec_publish_request op c c' out pcc stream k on_failure :
  exec op c = Some (c', out) →
  PccPublish pcc stream k on_failure ∈ out →
  op = publish_of k on_failure ∧ captured_stream k = stream.
Proof.
  assert (Hget : ∀ target_id x,
    PccPublish pcc stream k on_failure
      ∈ calls_of (GetPeerConnectionChannel target_id c) ++ [x] →
    x = PccPublish pcc stream k on_failure).
  { intros target_id x [Hin|Hin%list_elem_of_singleton]%elem_of_app; [|done].
    by apply GetPeerConnectionChannel_calls in Hin. }
  destruct op; simpl; unfold run_unit; try (intros [= <- <-]).
  - by intros ?%list_elem_of_singleton.
  - by intros ?%list_elem_of_singleton.
  - destruct (decide (target_id ∈ allowed_remote_ids_ c)) as [H|H].
    + rewrite AddAllowedRemoteId_present by done.
      by intros ?%list_elem_of_singleton.
    + rewrite AddAllowedRemoteId_absent by done. by intros ?%not_elem_of_nil.
  - destruct (decide (target_id ∈ allowed_remote_ids_ c)) as [H|H].
    + rewrite RemoveAllowedRemoteId_open, Stop_unfold by done.
      by intros ?%Hget.
    + rewrite RemoveAllowedRemoteId_closed, post_failure_calls by done.
      by intros ?%not_elem_of_nil.
  - destruct (decide (target_id ∈ allowed_remote_ids_ c)) as [H|H].
    + rewrite Publish_open by done. by intros [= <- <- <- <-]%Hget.
    + rewrite Publish_closed, post_failure_calls by done.
      by intros ?%not_elem_of_nil.
  - rewrite Unpublish_unfold. by intros ?%Hget.
  - destruct (decide (target_id ∈ allowed_remote_ids_ c)) as [H|H].
    + rewrite Send_open by done. by intros ?%Hget.
    + rewrite Send_closed, post_failure_calls by done.
      by intros ?%not_elem_of_nil.
  - rewrite Stop_unfold. by intros ?%Hget.
  - rewrite GetConnectionStats_unfold. by intros ?%Hget.
  - by intros ?%not_elem_of_nil.
  - unfold RemoveObserver.
    destruct (vector_erase _ _) as [v|]; simpl; [|done].
    intros [= <- <-]. by intros ?%not_elem_of_nil.
  - destruct (decide (remote_id ∈ allowed_remote_ids_ c)) as [H|H].
    + destruct (decide (message = chat_closed ∧ pc_channels_ c !! remote_id = None))
        as [[-> Hn]|Hn].
      * rewrite OnMessage_closing_unknown by done.
        by intros ?%list_elem_of_singleton.
      * rewrite OnMessage_dispatch by done. by intros ?%Hget.
    + rewrite OnMessage_closed by done. by intros ?%list_elem_of_singleton.
  - by intros ?%list_elem_of_singleton.
  - by intros ?%not_elem_of_nil.
Qed.

Lemma reply_success_publication alive x on_success publication :
  InvokePublication on_success publication ∈ reply_success alive x →
  alive = true
  ∧ ∃ pcc stream on_failure,
      x = PccPublish pcc stream (continuation_of on_success publication)
            on_failure.
Proof.
  destruct x as [| | | | | | |pcc stream k on_failure| | | | |]; simpl;
    intros Hin;
    repeat match goal with
           | o : option Callback |- _ => destruct o; simpl in Hin
           end;
    try (by apply not_elem_of_nil in Hin);
    try (by apply list_elem_of_singleton in Hin).
  all: unfold run_publish_continuation in Hin.
  all: destruct k as [[f|] that target_id stream']; simpl in Hin;
    [|by apply not_elem_of_nil in Hin].
  all: destruct alive; [|by apply not_elem_of_nil in Hin].
  all: apply list_elem_of_singleton in Hin as [= -> ->].
  all: split; [done|]; by eexists _, _, _.
Qed.

Lemma reply_failure_no_publication x e on_success publication :
  InvokePublication on_success publication ∉ reply_failure x e.
Proof.
  destruct x; simpl; try apply not_elem_of_nil;
    destruct on_failure; simpl;
    first [apply not_elem_of_nil | by intros ?%list_elem_of_singleton].
Qed.

Lemma signaling_failure_no_publication x code on_success publication :
  InvokePublication on_success publication ∉ signaling_failure x code.
Proof.
  destruct x; simpl; try apply not_elem_of_nil.
  destruct on_failure; simpl;
    first [apply not_elem_of_nil | by intros ?%list_elem_of_singleton].
Qed.

Lemma run_task_no_publication t on_success publication :
  run_task t ≠ InvokePublication on_success publication.
Proof. by destruct t. Qed.

Lemma world_inv_new self configuration :
  world_inv (World_new self configuration).
Proof.
  split; simpl.
  - by intros ???? ?%not_elem_of_nil.
  - intros i ????. by rewrite lookup_nil.
Qed.

(** The invariant goes on when the history grows by an entry without a
    publication and the pending requests do not grow. *)
Lemma world_inv_quiet w w' entry :
  world_inv w →
  history w' = history w ++ [entry] →
  (∀ x, x ∈ pending w' → x ∈ pending w) →
  (∀ on_success publication,
     InvokePublication on_success publication ∉ entry.2) →
  world_inv w'.
Proof.
  intros [HP HH] Hhist Hpend Hquiet. split.
  - intros pcc stream k on_failure Hin%Hpend.
    destruct (HP _ _ _ _ Hin) as [Hs [j Hj]]. split; [done|].
    exists j. rewrite Hhist. by apply lookup_app_l_Some.
  - intros i trigger invocations on_success publication.
    rewrite Hhist, lookup_snoc_Some. intros [[_ Hi]|[_ ->]] Hin.
    + destruct (HH _ _ _ _ _ Hi Hin) as (pcc & f & Ht & j & Hlt & Hj).
      exists pcc, f. split; [done|]. exists j. split; [done|].
      by apply lookup_app_l_Some.
    + by apply Hquiet in Hin.
Qed.

Lemma elem_of_remove_middle {A} (before after : list A) (x y : A) :
  y ∈ before ++ after → y ∈ before ++ x :: after.
Proof.
  rewrite !elem_of_app, elem_of_cons. tauto.
Qed.

Lemma world_inv_step w w' :
  world_inv w → world_step w w' → world_inv w'.
Proof.
  intros Hinv Hstep.
  destruct Hstep as [w op c' out Halive Hexec|w i c' Hrun|w
                    |w before x after Hpend|w before x after e Hpend
                    |w before x after code Hpend].
  - destruct Hinv as [HP HH]. split; simpl.
    + intros pcc stream k on_failure [Hin|Hin]%elem_of_app.
      * destruct (HP _ _ _ _ Hin) as [Hs [j Hj]]. split; [done|].
        exists j. by apply lookup_app_l_Some.
      * apply list_elem_of_filter in Hin as [_ Hin].
        destruct (exec_publish_request _ _ _ _ _ _ _ _ Hexec Hin) as [-> Hs].
        split; [done|]. exists (length (history w)).
        apply lookup_snoc_Some. by right.
    + intros i trigger invocations on_success publication.
      rewrite lookup_snoc_Some. intros [[_ Hi]|[_ [= <- <-]]] Hin.
      * destruct (HH _ _ _ _ _ Hi Hin) as (pcc & f & Ht & j & Hlt & Hj).
        exists pcc, f. split; [done|]. exists j. split; [done|].
        by apply lookup_app_l_Some.
      * by apply not_elem_of_nil in Hin.
  - eapply world_inv_quiet; [done|reflexivity|done|]. simpl.
    intros on_success publication Hin%list_elem_of_singleton.
    unfold run_next in Hrun. destruct (event_queue_ (client w)); [done|].
    injection Hrun as <- _. symmetry in Hin.
    by apply run_task_no_publication in Hin.
  - eapply world_inv_quiet; [done|reflexivity|done|]. simpl.
    intros ??. apply not_elem_of_nil.
  - destruct Hinv as [HP HH]. split; simpl.
    + intros pcc stream k on_failure Hin.
      assert (Hin' : PccPublish pcc stream k on_failure ∈ pending w)
        by (rewrite Hpend; by apply elem_of_remove_middle).
      destruct (HP _ _ _ _ Hin') as [Hs [j Hj]]. split; [done|].
      exists j. by apply lookup_app_l_Some.
    + intros i trigger invocations on_success publication.
      rewrite lookup_snoc_Some. intros [[_ Hi]|[-> [= <- <-]]] Hin.
      * destruct (HH _ _ _ _ _ Hi Hin) as (pcc & f & Ht & j & Hlt & Hj).
        exists pcc, f. split; [done|]. exists j. split; [done|].
        by apply lookup_app_l_Some.
      * apply reply_success_publication in Hin
          as [_ (pcc & stream & f & ->)].
        assert (Hin' : PccPublish pcc stream
                         (continuation_of on_success publication) f
                       ∈ pending w).
        { rewrite Hpend. apply elem_of_app. right. left. }
        destruct (HP _ _ _ _ Hin') as [Hs [j Hj]]. simpl in Hs. subst stream.
        exists pcc, f. split; [done|]. exists j.
        split; [by apply lookup_lt_Some in Hj|].
        by apply lookup_app_l_Some.
  - eapply world_inv_quiet; [done|reflexivity| |].
    + simpl. intros y Hy. rewrite Hpend. by apply elem_of_remove_middle.
    + simpl. intros ??. apply reply_failure_no_publication.
  - eapply world_inv_quiet; [done|reflexivity| |].
    + simpl. intros y Hy. rewrite Hpend. by apply elem_of_remove_middle.
    + simpl. intros ??. apply signaling_failure_no_publication.
Qed.

Lemma reachable_world_inv w : reachable_world w → world_inv w.
Proof.
  induction 1 as [self configuration|w w' _ IH Hstep].
  - apply world_inv_new.
  - by eapply world_inv_step.
Qed.

(** C7.  In every history of the client and its collaborators, a publication
    reaches the application only in the step in which a channel reports the
    success of a publish request: the publication is delivered through the
    success callback of a [Publish] call made earlier, and it is bound to the
    client, the target and the stream of that call.  A failure report
    delivers no publication.  For an allowed target, the request that
    [Publish] makes is such that the success report delivers exactly that
    publication, and the failure report goes to the failure callback of the
    caller as it is. *)
Theorem publication_only_after_publish_success (w : World) :
  reachable_world w →
  (∀ i trigger invocations on_success publication,
     history w !! i = Some (trigger, invocations) →
     InvokePublication on_success publication ∈ invocations →
     ∃ pcc on_failure,
       trigger =
         TSuccess (PccPublish pcc (publication_stream publication)
                     (continuation_of on_success publication) on_failure)
       ∧ ∃ j, j < i
              ∧ history w !! j
                = Some (TCall (OpPublish (publication_target_id publication)
                                 (publication_stream publication)
                                 (Some on_success) on_failure), []))
  ∧ (∀ x e on_success publication,
       InvokePublication on_success publication ∉ reply_failure x e)
  ∧ (∀ target_id stream on_success on_failure,
       target_id ∈ allowed_remote_ids_ (client w) →
       ∃ pcc k,
         last (calls_of (Publish target_id stream (Some on_success) on_failure
                           (client w)))
         = Some (PccPublish pcc stream k on_failure)
         ∧ reply_success true (PccPublish pcc stream k on_failure)
           = [InvokePublication on_success
                {| publication_client := this (client w);
                   publication_target_id := target_id;
                   publication_stream := stream |}]
         ∧ ∀ e, reply_failure (PccPublish pcc stream k on_failure) e
                = report_failure on_failure e).
Proof.
  intros [_ HH]%reachable_world_inv. split; [|split].
  - intros i trigger invocations on_success publication Hi Hin.
    destruct (HH _ _ _ _ _ Hi Hin) as (pcc & f & Ht & j & Hlt & Hj).
    exists pcc, f. split; [done|]. by exists j.
  - intros. apply reply_failure_no_publication.
  - intros target_id stream on_success on_failure Hin.
    eexists _, _. rewrite (Publish_open _ _ _ _ _ Hin).
    unfold calls_of. simpl. split; [apply last_snoc|]. done.
Qed.

Lemma bob_published_reachable : reachable_world bob_published.
Proof.
  pose (w0 := World_new 1 (mkP2PClientConfiguration [] kAll)).
  assert (H0 : reachable_world w0) by apply reachable_world_new.
  assert (H1 : reachable_world bob_allowed).
  { apply (reachable_world_step w0); [exact H0|].
    exact (step_call w0 (OpAddAllowedRemoteId "bob") (client bob_allowed)
             [] eq_refl eq_refl). }
  assert (H2 : reachable_world bob_publishing).
  { apply (reachable_world_step bob_allowed); [exact H1|].
    exact (step_call bob_allowed (OpPublish "bob" 5 (Some 7) (Some 8))
             (client bob_publishing)
             (calls_of (Publish "bob" 5 (Some 7) (Some 8) (client bob_allowed)))
             eq_refl eq_refl). }
  apply (reachable_world_step bob_publishing); [exact H2|].
  exact (step_success bob_publishing [] bob_request [] eq_refl).
Qed.

Lemma publication_only_after_publish_success_witness :
  reachable_world bob_published
  ∧ ∃ pcc on_failure j,
      history bob_published !! 2
      = Some (TSuccess (PccPublish pcc 5
                          {| captured_on_success := Some 7;
                             captured_weak_this := 1;
                             captured_target_id := "bob";
                             captured_stream := 5 |} on_failure),
              [InvokePublication 7
                 {| publication_client := 1; publication_target_id := "bob";
                    publication_stream := 5 |}])
      ∧ j < 2
      ∧ history bob_published !! j
        = Some (TCall (OpPublish "bob" 5 (Some 7) on_failure), []).
Proof.
  split; [apply bob_published_reachable|].
  destruct (publication_only_after_publish_success bob_published
              bob_published_reachable) as (H & _ & _).
  destruct (H 2 _ _ 7
              {| publication_client := 1; publication_target_id := "bob";
                 publication_stream := 5 |} eq_refl)
    as (pcc & on_failure & Ht & j & Hlt & Hj).
  - apply list_elem_of_singleton. reflexivity.
  - exists pcc, on_failure, j. injection Ht as <- <-.
    split; [reflexivity|]. split; [exact Hlt | exact Hj].
Defined.

(** * Properties of the whole client *)

(** ** The list of allowed identities and the channel map *)


Lemma client_with_two_sessions_reachable : reachable client_with_two_sessions.
Proof.
  eapply (reachable_exec _ (OpGetConnectionStats "bob" None None));
    [|reflexivity].
  eapply (reachable_exec _ (OpSend "eve" "hi" None None)); [|reflexivity].
  eapply (reachable_exec _ (OpAddAllowedRemoteId "eve")); [|reflexivity].
  apply (reachable_new 1 (mkP2PClientConfiguration [] kAll)).
Qed.


(** X2.  In every reachable state the sessions of two different identities
    have different channels, and every channel of the map was created by this
    client. *)
Theorem sessions_have_distinct_channels
    (c : P2PClient) (id1 id2 : string) (pcc1 pcc2 : Pcc) :
  reachable c →
  pc_channels_ c !! id1 = Some pcc1 →
  pc_channels_ c !! id2 = Some pcc2 →
  id1 ≠ id2 →
  pcc1 ≠ pcc2 ∧ pcc1 < next_pcc c ∧ pcc2 < next_pcc c.
Proof.
  intros [_ Halloc Hdist]%reachable_inv H1 H2 Hne.
  split; [|split; eauto].
  intros <-. apply Hne. by eapply Hdist.
Qed.

Lemma sessions_have_distinct_channels_witness :
  pc_channels_ client_with_two_sessions !! "eve" = Some 0
  ∧ pc_channels_ client_with_two_sessions !! "bob" = Some 1
  ∧ 0 ≠ 1 ∧ 0 < next_pcc client_with_two_sessions
  ∧ 1 < next_pcc client_with_two_sessions.
Proof.
  split; [reflexivity|]. split; [reflexivity|].
  apply (sessions_have_distinct_channels client_with_two_sessions "eve" "bob").
  - apply client_with_two_sessions_reachable.
  - reflexivity.
  - reflexivity.
  - discriminate.
Defined.

(** X3.  [GetPeerConnectionChannel] gets or creates: the channel it returns
    is the one the map holds for the identity afterwards, the entries of the
    other identities and the list of allowed identities are left alone, and
    a second call for the same identity returns the same channel, changes
    nothing and calls nothing. *)
Theorem GetPeerConnectionChannel_get_or_create (c : P2PClient) (target_id : string) :
  let r := GetPeerConnectionChannel target_id c in
  pc_channels_ (state_of r) !! target_id = Some (value_of r)
  ∧ (∀ other, other ≠ target_id →
       pc_channels_ (state_of r) !! other = pc_channels_ c !! other)
  ∧ allowed_remote_ids_ (state_of r) = allowed_remote_ids_ c
  ∧ observers_ (state_of r) = observers_ c
  ∧ event_queue_ (state_of r) = event_queue_ c
  ∧ GetPeerConnectionChannel target_id (state_of r)
    = (value_of r, state_of r, []).
Proof.
  intros r. subst r.
  split; [apply GetPeerConnectionChannel_lookup|].
  split; [intros; by apply GetPeerConnectionChannel_lookup_ne|].
  split; [apply GetPeerConnectionChannel_allowed|].
  split; [apply GetPeerConnectionChannel_observers|].
  split; [apply GetPeerConnectionChannel_event_queue|].
  apply GetPeerConnectionChannel_existing, GetPeerConnectionChannel_lookup.
Qed.

(** X4.  [IsPeerConnectionChannelCreated] is a query: it leaves the client as
    it was and calls nothing, and it answers true exactly when the channel map
    has an entry for the identity.  It answers true after
    [GetPeerConnectionChannel] for the identity and false after [Stop] for
    it. *)
Theorem IsPeerConnectionChannelCreated_reflects_map
    (c : P2PClient) (target_id : string) :
  state_of (IsPeerConnectionChannelCreated target_id c) = c
  ∧ calls_of (IsPeerConnectionChannelCreated target_id c) = []
  ∧ (value_of (IsPeerConnectionChannelCreated target_id c) = true
     ↔ is_Some (pc_channels_ c !! target_id))
  ∧ value_of (IsPeerConnectionChannelCreated target_id
                (state_of (GetPeerConnectionChannel target_id c))) = true
  ∧ ∀ on_success on_failure,
      value_of (IsPeerConnectionChannelCreated target_id
                  (state_of (Stop target_id on_success on_failure c))) = false.
Proof.
  assert (H : ∀ c',
    IsPeerConnectionChannelCreated target_id c'
    = (match pc_channels_ c' !! target_id with
       | Some _ => true | None => false end, c', [])).
  { intros c'. unfold IsPeerConnectionChannelCreated, mbind, M_bind, get.
    by destruct (pc_channels_ c' !! target_id). }
  rewrite !H. split; [done|]. split; [done|]. split; [|split].
  - unfold value_of. simpl.
    destruct (pc_channels_ c !! target_id) as [pcc|].
    + split; [by exists pcc|done].
    + split; [done|by intros [? ?]].
  - unfold value_of at 1. simpl.
    by rewrite GetPeerConnectionChannel_lookup.
  - intros on_success on_failure. rewrite H. unfold value_of at 1. simpl.
    by rewrite Stop_channel_gone.
Qed.

Lemma map_rebuild_IceServer (v : list IceServer) :
  map (λ it, {| urls := urls it; username := username it;
                password := password it |}) v = v.
Proof.
  induction v as [|[u n p] v IH]; simpl; [done|]. by rewrite IH.
Qed.

(** X5.  [GetPeerConnectionChannelConfiguration] reads only: the client is
    left as it was.  The servers of the channel configuration are the ICE
    servers of the client configuration, all of them, in their order, with
    their urls, user name and password; the policy is low cost exactly when
    the policy of the client is low cost, and all otherwise. *)
Theorem channel_configuration_copies_client_configuration (c : P2PClient) :
  let r := GetPeerConnectionChannelConfiguration c in
  state_of r = c ∧ calls_of r = []
  ∧ servers (value_of r) = ice_servers (configuration_ c)
  ∧ (pcc_candidate_network_policy (value_of r) = kCandidateNetworkPolicyLowCost
     ↔ candidate_network_policy (configuration_ c) = kLowCost)
  ∧ (pcc_candidate_network_policy (value_of r) = kCandidateNetworkPolicyAll
     ↔ candidate_network_policy (configuration_ c) ≠ kLowCost).
Proof.
  intros r. subst r.
  unfold GetPeerConnectionChannelConfiguration, mbind, M_bind, get, mret, M_ret,
    state_of, calls_of, value_of. simpl.
  split; [done|]. split; [done|].
  split; [apply map_rebuild_IceServer|].
  destruct (candidate_network_policy (configuration_ c)); split; split; done.
Qed.

(** ** Allowing, serving and removing an identity *)

Lemma state_of_run {A} (a : A) (c : P2PClient) (out : list Call) :
  state_of (a, c, out) = c.
Proof. reflexivity. Qed.

Lemma calls_of_run {A} (a : A) (c : P2PClient) (out : list Call) :
  calls_of (a, c, out) = out.
Proof. reflexivity. Qed.

Lemma AddAllowedRemoteId_frame c target_id :
  pc_channels_ (state_of (AddAllowedRemoteId target_id c)) = pc_channels_ c
  ∧ event_queue_ (state_of (AddAllowedRemoteId target_id c)) = event_queue_ c
  ∧ observers_ (state_of (AddAllowedRemoteId target_id c)) = observers_ c
  ∧ next_pcc (state_of (AddAllowedRemoteId target_id c)) = next_pcc c
  ∧ this (state_of (AddAllowedRemoteId target_id c)) = this c.
Proof.
  destruct (decide (target_id ∈ allowed_remote_ids_ c)) as [H|H].
  - by rewrite AddAllowedRemoteId_present.
  - by rewrite AddAllowedRemoteId_absent.
Qed.

(** X6.  Once [AddAllowedRemoteId] was called for an identity, [Send] and
    [Publish] for it are served: the request is the last call and goes to the
    channel that the map then holds for the identity, with the callbacks of
    the caller, and no failure is posted to the event queue. *)
Theorem added_identity_is_served (c : P2PClient) (id : string) :
  let c1 := state_of (AddAllowedRemoteId id c) in
  (∀ message on_success on_failure,
     let r := Send id message on_success on_failure c1 in
     ∃ pcc,
       last (calls_of r) = Some (PccSend pcc message on_success on_failure)
       ∧ pc_channels_ (state_of r) !! id = Some pcc
       ∧ event_queue_ (state_of r) = event_queue_ c)
  ∧ (∀ stream on_success on_failure,
     let r := Publish id stream on_success on_failure c1 in
     ∃ pcc,
       last (calls_of r)
       = Some (PccPublish pcc stream
                 {| captured_on_success := on_success;
                    captured_weak_this := this c;
                    captured_target_id := id;
                    captured_stream := stream |} on_failure)
       ∧ pc_channels_ (state_of r) !! id = Some pcc
       ∧ event_queue_ (state_of r) = event_queue_ c).
Proof.
  intros c1.
  assert (Hin : id ∈ allowed_remote_ids_ c1) by apply AddAllowedRemoteId_allowed.
  destruct (AddAllowedRemoteId_frame c id) as (_ & Hq & _ & _ & Hthis).
  fold c1 in Hq, Hthis. split.
  - intros message on_success on_failure r. subst r.
    exists (value_of (GetPeerConnectionChannel id c1)).
    rewrite (Send_open _ _ _ _ _ Hin), !state_of_run, calls_of_run.
    split; [apply last_snoc|].
    split; [apply GetPeerConnectionChannel_lookup|].
    by rewrite GetPeerConnectionChannel_event_queue.
  - intros stream on_success on_failure r. subst r.
    exists (value_of (GetPeerConnectionChannel id c1)).
    rewrite (Publish_open _ _ _ _ _ Hin), !state_of_run, calls_of_run.
    rewrite Hthis. split; [apply last_snoc|].
    split; [apply GetPeerConnectionChannel_lookup|].
    by rewrite GetPeerConnectionChannel_event_queue.
Qed.

Lemma erase_remove_absent x v : x ∉ v → erase_remove x v = v.
Proof.
  induction v as [|y v IH]; [done|].
  intros Hnot. unfold erase_remove. rewrite filter_cons.
  rewrite decide_True.
  - f_equal. apply IH. intros Hin. apply Hnot. by right.
  - intros ->. apply Hnot. left.
Qed.

Lemma erase_remove_snoc x v : x ∉ v → erase_remove x (v ++ [x]) = v.
Proof.
  intros Hnot. unfold erase_remove. rewrite filter_app.
  fold (erase_remove x v). rewrite (erase_remove_absent _ _ Hnot).
  rewrite filter_cons, decide_False by (intros H; by apply H).
  by rewrite filter_nil, app_nil_r.
Qed.

(** X7.  [AddAllowedRemoteId] followed by [RemoveAllowedRemoteId] for an
    identity that was not allowed before: the list of allowed identities is
    what it was, nothing is posted to the event queue, and the channel map
    is what it was, less the entry of the identity.  When the identity had no
    session, the channel map is what it was, yet the removal creates a channel
    for the identity, registers the client as its observer and asks it to
    stop, with the callbacks of the caller. *)
Theorem Add_Remove_round_trip
    (c : P2PClient) (id : string) (on_success on_failure : option Callback) :
  id ∉ allowed_remote_ids_ c →
  let r := RemoveAllowedRemoteId id on_success on_failure
             (state_of (AddAllowedRemoteId id c)) in
  allowed_remote_ids_ (state_of r) = allowed_remote_ids_ c
  ∧ event_queue_ (state_of r) = event_queue_ c
  ∧ observers_ (state_of r) = observers_ c
  ∧ pc_channels_ (state_of r) = delete id (pc_channels_ c)
  ∧ (pc_channels_ c !! id = None →
       pc_channels_ (state_of r) = pc_channels_ c
       ∧ calls_of r
         = [PccNew (next_pcc c) (pcc_configuration c) (local_id_ c) id;
            PccAddObserver (next_pcc c) (this c);
            PccStop (next_pcc c) on_success on_failure]).
Proof.
  intros Hnot r. subst r.
  rewrite (AddAllowedRemoteId_absent _ _ Hnot), !state_of_run.
  set (c1 := set_allowed_remote_ids (λ v, v ++ [id]) c).
  assert (Hin : id ∈ allowed_remote_ids_ c1).
  { unfold c1. simpl. apply elem_of_app. right. by apply list_elem_of_singleton. }
  rewrite (RemoveAllowedRemoteId_open _ _ _ _ Hin), Stop_unfold.
  rewrite !state_of_run, !calls_of_run.
  destruct (GetPeerConnectionChannel_cases c1 id) as [(pcc & H & ->)|[H ->]];
    unfold state_of, calls_of, value_of; simpl.
  - split; [by apply erase_remove_snoc|]. split; [done|]. split; [done|].
    split; [done|]. intros Hnone. unfold c1 in H. simpl in H. congruence.
  - split; [by apply erase_remove_snoc|]. split; [done|]. split; [done|].
    split; [apply delete_insert_eq|]. intros Hnone.
    split; [by apply delete_insert_id|]. done.
Qed.

Lemma Add_Remove_round_trip_witness :
  let c := client_allowing_eve in
  let r := RemoveAllowedRemoteId "bob" (Some 1) (Some 2)
             (state_of (AddAllowedRemoteId "bob" c)) in
  allowed_remote_ids_ (state_of r) = ["eve"]
  ∧ pc_channels_ (state_of r) = pc_channels_ c
  ∧ calls_of r
    = [PccNew 0 (mkPccConfiguration [] kCandidateNetworkPolicyAll) "" "bob";
       PccAddObserver 0 1; PccStop 0 (Some 1) (Some 2)].
Proof.
  intros c r.
  destruct (Add_Remove_round_trip c "bob" (Some 1) (Some 2))
    as (Ha & _ & _ & _ & Hc).
  - by apply (bool_decide_eq_false_1 _).
  - destruct (Hc eq_refl) as [Hm Hcalls].
    split; [exact Ha|]. split; [exact Hm | exact Hcalls].
Defined.

(** X8.  For an identity that has a session, [Unpublish] and
    [GetConnectionStats] only delegate: the client is left as it was and the
    one call made is the request to the channel of the session, with the
    stream and the callbacks of the caller. *)
Theorem Unpublish_GetConnectionStats_delegate
    (c : P2PClient) (id : string) (pcc : Pcc) :
  pc_channels_ c !! id = Some pcc →
  (∀ stream on_success on_failure,
     Unpublish id stream on_success on_failure c
     = (tt, c, [PccUnpublish pcc stream on_success on_failure]))
  ∧ (∀ on_success on_failure,
     GetConnectionStats id on_success on_failure c
     = (tt, c, [PccGetConnectionStats pcc on_success on_failure])).
Proof.
  intros H. split; intros.
  - by rewrite Unpublish_unfold, (GetPeerConnectionChannel_existing _ _ _ H).
  - by rewrite GetConnectionStats_unfold,
         (GetPeerConnectionChannel_existing _ _ _ H).
Qed.

Lemma Unpublish_GetConnectionStats_delegate_witness :
  Unpublish "eve" 5 (Some 1) None client_with_two_sessions
  = (tt, client_with_two_sessions, [PccUnpublish 0 5 (Some 1) None])
  ∧ GetConnectionStats "bob" None (Some 2) client_with_two_sessions
    = (tt, client_with_two_sessions, [PccGetConnectionStats 1 None (Some 2)]).
Proof.
  split.
  - apply (Unpublish_GetConnectionStats_delegate
             client_with_two_sessions "eve" 0 eq_refl).
  - apply (Unpublish_GetConnectionStats_delegate
             client_with_two_sessions "bob" 1 eq_refl).
Defined.

(** X11.  When the failure callback is left out, [Publish], [Send] and
    [RemoveAllowedRemoteId] for an identity that is not allowed do nothing at
    all: the client is left as it was, nothing is posted and nothing is
    called. *)
Theorem omitted_failure_callback_is_silent (c : P2PClient) (id : string) :
  id ∉ allowed_remote_ids_ c →
  (∀ stream on_success, Publish id stream on_success None c = (tt, c, []))
  ∧ (∀ message on_success, Send id message on_success None c = (tt, c, []))
  ∧ (∀ on_success, RemoveAllowedRemoteId id on_success None c = (tt, c, [])).
Proof.
  intros Hnot. split; [|split]; intros.
  - by rewrite Publish_closed.
  - by rewrite Send_closed.
  - by rewrite RemoveAllowedRemoteId_closed.
Qed.

Lemma omitted_failure_callback_is_silent_witness :
  Publish "mallory" 5 (Some 1) None client_allowing_eve
  = (tt, client_allowing_eve, [])
  ∧ Send "mallory" "hi" (Some 1) None client_allowing_eve
    = (tt, client_allowing_eve, [])
  ∧ RemoveAllowedRemoteId "mallory" (Some 1) None client_allowing_eve
    = (tt, client_allowing_eve, []).
Proof.
  destruct (omitted_failure_callback_is_silent client_allowing_eve "mallory")
    as (H1 & H2 & H3).
  - by apply (bool_decide_eq_false_1 _).
  - split; [apply H1|]. split; [apply H2 | apply H3].
Defined.

(** X12.  The failures the client raises itself say what was refused: for an
    identity that is not allowed, the task [Publish] posts invokes the failure
    callback with kind RemoteNotAllowed and the message
    "Publishing a stream cannot be done since the remote user is not allowed.",
    and the task [RemoveAllowedRemoteId] posts invokes it with kind
    RemoteNotExisted and the message "Trying to delete non-existed remote id.".
    The success callback is not invoked. *)
Theorem local_failures_say_what_was_refused
    (c : P2PClient) (id : string) (on_success : option Callback)
    (on_failure : Callback) :
  id ∉ allowed_remote_ids_ c →
  (∀ stream,
     (drain (state_of (Publish id stream on_success (Some on_failure) c))).1
     = (drain c).1
         ++ [InvokeFailure on_failure
               (Exception.new kP2PClientRemoteNotAllowed
  "Publishing a stream cannot be done since the remote user is not allowed.")])
  ∧ (drain (state_of (RemoveAllowedRemoteId id on_success (Some on_failure) c))).1
    = (drain c).1
        ++ [InvokeFailure on_failure
              (Exception.new kP2PClientRemoteNotExisted
                 "Trying to delete non-existed remote id.")].
Proof.
  intros Hnot. split; [intros stream|].
  - rewrite (Publish_closed _ _ _ _ _ Hnot), post_failure_some.
    unfold state_of. simpl fst. simpl snd. apply drain_posted.
  - rewrite (RemoveAllowedRemoteId_closed _ _ _ _ Hnot), post_failure_some.
    unfold state_of. simpl fst. simpl snd. apply drain_posted.
Qed.

Lemma local_failures_say_what_was_refused_witness :
  (drain (state_of (Publish "mallory" 5 (Some 1) (Some 2) client_allowing_eve))).1
  = [InvokeFailure 2
       (Exception.new kP2PClientRemoteNotAllowed
  "Publishing a stream cannot be done since the remote user is not allowed.")].
Proof.
  destruct (local_failures_say_what_was_refused client_allowing_eve "mallory"
              (Some 1) 2) as [H _].
  - by apply (bool_decide_eq_false_1 _).
  - apply (H 5).
Defined.

(** ** What an entry point writes and whom it calls *)

Lemma GetPeerConnectionChannel_frame c target_id :
  this (state_of (GetPeerConnectionChannel target_id c)) = this c
  ∧ local_id_ (state_of (GetPeerConnectionChannel target_id c)) = local_id_ c
  ∧ configuration_ (state_of (GetPeerConnectionChannel target_id c))
    = configuration_ c
  ∧ next_pcc c ≤ next_pcc (state_of (GetPeerConnectionChannel target_id c)).
Proof.
  destruct (GetPeerConnectionChannel_cases c target_id)
    as [(pcc & H & ->)|[H ->]]; rewrite state_of_run; simpl; repeat split; lia.
Qed.

(** The two shapes of an entry point: either it does not look at the channel
    map, or it looks up the channel of one identity, makes its calls on that
    channel and leaves the map entry or, for [Stop], erases it. *)
Lemma exec_shape op c c' out :
  exec op c = Some (c', out) →
  (uses_channel op = false
   ∧ (∀ x, x ∈ out → channel_of x = None)
   ∧ pc_channels_ c' = pc_channels_ c ∧ next_pcc c' = next_pcc c
   ∧ this c' = this c ∧ local_id_ c' = local_id_ c
   ∧ configuration_ c' = configuration_ c)
  ∨ (∃ target_id rest,
       out = calls_of (GetPeerConnectionChannel target_id c) ++ rest
       ∧ (∀ x, x ∈ rest →
            channel_of x
            = Some (value_of (GetPeerConnectionChannel target_id c))
            ∧ ∀ pcc config local_id id, x ≠ PccNew pcc config local_id id)
       ∧ (pc_channels_ c'
          = pc_channels_ (state_of (GetPeerConnectionChannel target_id c))
          ∨ pc_channels_ c'
            = delete target_id
                (pc_channels_ (state_of (GetPeerConnectionChannel target_id c))))
       ∧ next_pcc c' = next_pcc (state_of (GetPeerConnectionChannel target_id c))
       ∧ this c' = this c ∧ local_id_ c' = local_id_ c
       ∧ configuration_ c' = configuration_ c)
  ∨ (uses_channel op = true ∧ c' = c ∧ ∀ x, x ∈ out → channel_of x = None)
  ∨ (uses_channel op = true ∧ out = []
     ∧ ∃ f, c' = set_event_queue f c).
Proof.
  assert (Hget : ∀ target_id x c1,
    (∀ pcc config local_id id, x ≠ PccNew pcc config local_id id) →
    channel_of x = Some (value_of (GetPeerConnectionChannel target_id c)) →
    (pc_channels_ c1
     = pc_channels_ (state_of (GetPeerConnectionChannel target_id c))
     ∨ pc_channels_ c1
       = delete target_id
           (pc_channels_ (state_of (GetPeerConnectionChannel target_id c)))) →
    next_pcc c1 = next_pcc (state_of (GetPeerConnectionChannel target_id c)) →
    this c1 = this (state_of (GetPeerConnectionChannel target_id c)) →
    local_id_ c1 = local_id_ (state_of (GetPeerConnectionChannel target_id c)) →
    configuration_ c1
    = configuration_ (state_of (GetPeerConnectionChannel target_id c)) →
    ∃ t rest,
      calls_of (GetPeerConnectionChannel target_id c) ++ [x]
      = calls_of (GetPeerConnectionChannel t c) ++ rest
      ∧ (∀ y, y ∈ rest →
           channel_of y = Some (value_of (GetPeerConnectionChannel t c))
           ∧ ∀ pcc config local_id id, y ≠ PccNew pcc config local_id id)
      ∧ (pc_channels_ c1
         = pc_channels_ (state_of (GetPeerConnectionChannel t c))
         ∨ pc_channels_ c1
           = delete t (pc_channels_ (state_of (GetPeerConnectionChannel t c))))
      ∧ next_pcc c1 = next_pcc (state_of (GetPeerConnectionChannel t c))
      ∧ this c1 = this c ∧ local_id_ c1 = local_id_ c
      ∧ configuration_ c1 = configuration_ c).
  { intros target_id x c1 Hx Hch Hmap Hnext Hthis Hlocal Hconf.
    destruct (GetPeerConnectionChannel_frame c target_id) as (H1 & H2 & H3 & _).
    exists target_id, [x]. split; [done|]. split.
    - by intros y ->%list_elem_of_singleton.
    - repeat split; congruence. }
  destruct op; simpl; unfold run_unit; try (intros [= <- <-]).
  - left. repeat split; try done. by intros ? ->%list_elem_of_singleton.
  - left. repeat split; try done. by intros ? ->%list_elem_of_singleton.
  - left. destruct (decide (target_id ∈ allowed_remote_ids_ c)) as [H|H].
    + rewrite AddAllowedRemoteId_present by done.
      repeat split; try done. by intros ? ->%list_elem_of_singleton.
    + rewrite AddAllowedRemoteId_absent by done.
      repeat split; try done. by intros ? ?%not_elem_of_nil.
  - destruct (decide (target_id ∈ allowed_remote_ids_ c)) as [H|H].
    + right; left. rewrite RemoveAllowedRemoteId_open, Stop_unfold by done.
      rewrite state_of_run, calls_of_run. apply Hget; simpl; auto.
    + do 3 right. rewrite RemoveAllowedRemoteId_closed by done.
      rewrite post_failure_calls. split; [done|]. split; [done|].
      destruct on_failure; [rewrite post_failure_some, state_of_run; eauto|].
      exists (λ q, q). by destruct c.
  - destruct (decide (target_id ∈ allowed_remote_ids_ c)) as [H|H].
    + right; left. rewrite Publish_open by done.
      rewrite state_of_run, calls_of_run. apply Hget; simpl; auto.
    + do 3 right. rewrite Publish_closed by done.
      rewrite post_failure_calls. split; [done|]. split; [done|].
      destruct on_failure; [rewrite post_failure_some, state_of_run; eauto|].
      exists (λ q, q). by destruct c.
  - right; left. rewrite Unpublish_unfold.
    rewrite state_of_run, calls_of_run. apply Hget; simpl; auto.
  - destruct (decide (target_id ∈ allowed_remote_ids_ c)) as [H|H].
    + right; left. rewrite Send_open by done.
      rewrite state_of_run, calls_of_run. apply Hget; simpl; auto.
    + do 3 right. rewrite Send_closed by done.
      rewrite post_failure_calls. split; [done|]. split; [done|].
      destruct on_failure; [rewrite post_failure_some, state_of_run; eauto|].
      exists (λ q, q). by destruct c.
  - right; left. rewrite Stop_unfold.
    rewrite state_of_run, calls_of_run. apply Hget; simpl; auto.
  - right; left. rewrite GetConnectionStats_unfold.
    rewrite state_of_run, calls_of_run. apply Hget; simpl; auto.
  - left. repeat split; try done. by intros ? ?%not_elem_of_nil.
  - unfold RemoveObserver.
    destruct (vector_erase _ _) as [v|]; simpl; [|done].
    intros [= <- <-]. left. repeat split; try done. by intros ? ?%not_elem_of_nil.
  - destruct (decide (remote_id ∈ allowed_remote_ids_ c)) as [H|H].
    + destruct (decide (message = chat_closed ∧ pc_channels_ c !! remote_id = None))
        as [[-> Hn]|Hn].
      * do 2 right; left. rewrite OnMessage_closing_unknown by done.
        rewrite state_of_run, calls_of_run. split; [done|]. split; [done|].
        by intros ? ->%list_elem_of_singleton.
      * right; left. rewrite OnMessage_dispatch by done.
        rewrite state_of_run, calls_of_run. apply Hget; simpl; auto.
    + do 2 right; left. rewrite OnMessage_closed by done.
      rewrite state_of_run, calls_of_run. split; [done|]. split; [done|].
      by intros ? ->%list_elem_of_singleton.
  - left. repeat split; try done. by intros ? ->%list_elem_of_singleton.
  - left. repeat split; try done. by intros ? ?%not_elem_of_nil.
Qed.

(** X10.  What an entry point leaves alone.  No entry point changes the
    address, the local identity or the configuration of the client.  The list
    of allowed identities is written by [AddAllowedRemoteId],
    [RemoveAllowedRemoteId] and [Stop] only; the list of observers by
    [AddObserver] and [RemoveObserver] only; the channel map and the
    allocation of channels are left alone by every entry point that does not
    look up a channel ([Connect], [Disconnect], [AddAllowedRemoteId],
    [AddObserver], [RemoveObserver], [SendSignalingMessage] and the events for
    the observers). *)
Theorem entry_points_write_only_their_members
    (op : Op) (c c' : P2PClient) (out : list Call) :
  exec op c = Some (c', out) →
  this c' = this c ∧ local_id_ c' = local_id_ c
  ∧ configuration_ c' = configuration_ c
  ∧ (writes_allowed op = false →
       allowed_remote_ids_ c' = allowed_remote_ids_ c)
  ∧ (writes_observers op = false → observers_ c' = observers_ c)
  ∧ (uses_channel op = false →
       pc_channels_ c' = pc_channels_ c ∧ next_pcc c' = next_pcc c).
Proof.
  assert (Hg : ∀ t,
    this (state_of (GetPeerConnectionChannel t c)) = this c
    ∧ local_id_ (state_of (GetPeerConnectionChannel t c)) = local_id_ c
    ∧ configuration_ (state_of (GetPeerConnectionChannel t c))
      = configuration_ c
    ∧ allowed_remote_ids_ (state_of (GetPeerConnectionChannel t c))
      = allowed_remote_ids_ c
    ∧ observers_ (state_of (GetPeerConnectionChannel t c)) = observers_ c).
  { intros t. destruct (GetPeerConnectionChannel_frame c t) as (? & ? & ? & _).
    repeat split; try done.
    - apply GetPeerConnectionChannel_allowed.
    - apply GetPeerConnectionChannel_observers. }
  assert (Hp : ∀ on_failure type message,
    state_of (post_failure on_failure type message c) = c
    ∨ ∃ f, state_of (post_failure on_failure type message c)
           = set_event_queue f c).
  { intros [f|] type message; [right|left; done].
    rewrite post_failure_some, state_of_run. eauto. }
  destruct op; simpl; unfold run_unit; try (intros [= <- <-]).
  - done.
  - done.
  - destruct (AddAllowedRemoteId_frame c target_id) as (? & ? & ? & ? & ?).
    repeat split; try done.
    all: destruct (decide (target_id ∈ allowed_remote_ids_ c)) as [Hd|Hd];
      [by rewrite AddAllowedRemoteId_present
      |by rewrite AddAllowedRemoteId_absent].
  - destruct (decide (target_id ∈ allowed_remote_ids_ c)) as [H|H].
    + rewrite RemoveAllowedRemoteId_open, Stop_unfold, state_of_run by done.
      destruct (Hg target_id) as (? & ? & ? & ? & ?). by repeat split.
    + rewrite RemoveAllowedRemoteId_closed by done.
      by destruct (Hp on_failure kP2PClientRemoteNotExisted
                     "Trying to delete non-existed remote id.")
        as [->|[f ->]].
  - destruct (decide (target_id ∈ allowed_remote_ids_ c)) as [H|H].
    + rewrite Publish_open, state_of_run by done.
      destruct (Hg target_id) as (? & ? & ? & ? & ?). by repeat split.
    + rewrite Publish_closed by done.
      by destruct (Hp on_failure kP2PClientRemoteNotAllowed
        "Publishing a stream cannot be done since the remote user is not allowed.")
        as [->|[f ->]].
  - rewrite Unpublish_unfold, state_of_run.
    destruct (Hg target_id) as (? & ? & ? & ? & ?). by repeat split.
  - destruct (decide (target_id ∈ allowed_remote_ids_ c)) as [H|H].
    + rewrite Send_open, state_of_run by done.
      destruct (Hg target_id) as (? & ? & ? & ? & ?). by repeat split.
    + rewrite Send_closed by done.
      by destruct (Hp on_failure kP2PClientRemoteNotAllowed
        "Sending a message cannot be done since the remote user is not allowed.")
        as [->|[f ->]].
  - rewrite Stop_unfold, state_of_run.
    destruct (Hg target_id) as (? & ? & ? & ? & ?). by repeat split.
  - rewrite GetConnectionStats_unfold, state_of_run.
    destruct (Hg target_id) as (? & ? & ? & ? & ?). by repeat split.
  - done.
  - unfold RemoveObserver.
    destruct (vector_erase _ _) as [v|]; simpl; [|done].
    by intros [= <- <-].
  - destruct (decide (remote_id ∈ allowed_remote_ids_ c)) as [H|H].
    + destruct (decide (message = chat_closed ∧ pc_channels_ c !! remote_id = None))
        as [[-> Hn]|Hn].
      * by rewrite OnMessage_closing_unknown.
      * rewrite OnMessage_dispatch, state_of_run by done.
        destruct (Hg remote_id) as (? & ? & ? & ? & ?). by repeat split.
    + by rewrite OnMessage_closed.
  - done.
  - done.
Qed.

Lemma entry_points_write_only_their_members_witness :
  allowed_remote_ids_
    (state_of (Publish "eve" 5 None None client_with_two_sessions))
  = ["eve"]
  ∧ observers_ (state_of (Publish "eve" 5 None None client_with_two_sessions))
    = [].
Proof.
  destruct (entry_points_write_only_their_members
              (OpPublish "eve" 5 None None) client_with_two_sessions
              (state_of (Publish "eve" 5 None None client_with_two_sessions))
              (calls_of (Publish "eve" 5 None None client_with_two_sessions))
              eq_refl) as (_ & _ & _ & Ha & Ho & _).
  split; [apply (Ha eq_refl) | apply (Ho eq_refl)].
Defined.

(** X14.  How channels are created.  Whenever an entry point creates a
    channel, the identity had no entry in the channel map, the channel is
    built with the configuration made from the configuration of the client
    and with the local identity of the client, the client registers as an
    observer of the channel in the same call, and this is the only channel
    the call creates. *)
Theorem channel_creation_discipline
    (op : Op) (c c' : P2PClient) (out : list Call)
    (pcc : Pcc) (config : PeerConnectionChannelConfiguration)
    (local_id id : string) :
  exec op c = Some (c', out) →
  PccNew pcc config local_id id ∈ out →
  pc_channels_ c !! id = None
  ∧ pcc = next_pcc c
  ∧ config = pcc_configuration c
  ∧ local_id = local_id_ c
  ∧ PccAddObserver pcc (this c) ∈ out
  ∧ next_pcc c' = S (next_pcc c)
  ∧ (∀ pcc' config' local_id' id',
       PccNew pcc' config' local_id' id' ∈ out → pcc' = pcc ∧ id' = id).
Proof.
  intros Hexec Hin.
  destruct (exec_shape _ _ _ _ Hexec)
    as [(_ & Hnone & _)|[(t & rest & -> & Hrest & _ & Hnext & _)
       |[(_ & _ & Hnone)|(_ & -> & _)]]].
  - by apply Hnone in Hin.
  - assert (Hnew : ∀ pcc' config' local_id' id',
      PccNew pcc' config' local_id' id'
        ∈ calls_of (GetPeerConnectionChannel t c) ++ rest →
      PccNew pcc' config' local_id' id'
        ∈ calls_of (GetPeerConnectionChannel t c)).
    { intros ???? [H|H]%elem_of_app; [done|].
      apply Hrest in H as [_ H]. by destruct (H pcc' config' local_id' id'). }
    apply Hnew in Hin. rewrite Hnext.
    destruct (GetPeerConnectionChannel_cases c t) as [(p & H & Heq)|[H Heq]];
      rewrite Heq in *; rewrite ?calls_of_run, ?state_of_run in *.
    + by apply not_elem_of_nil in Hin.
    + apply elem_of_cons in Hin as [[= -> -> -> ->]|Hin];
        [|by apply list_elem_of_singleton in Hin].
      split; [done|]. split; [done|]. split; [done|]. split; [done|].
      split; [apply elem_of_app; left; right; left|]. split; [done|].
      intros pcc' config' local_id' id' Hin'%Hnew.
      apply elem_of_cons in Hin' as [[= -> _ _ ->]|Hin']; [done|].
      by apply list_elem_of_singleton in Hin'.
  - by apply Hnone in Hin.
  - by apply not_elem_of_nil in Hin.
Qed.

Lemma channel_creation_discipline_witness :
  PccNew 2 (mkPccConfiguration [] kCandidateNetworkPolicyAll) "" "carol"
    ∈ calls_of (Unpublish "carol" 5 None None client_with_two_sessions)
  ∧ pc_channels_ client_with_two_sessions !! "carol" = None
  ∧ PccAddObserver 2 1
      ∈ calls_of (Unpublish "carol" 5 None None client_with_two_sessions).
Proof.
  assert (Hin :
    PccNew 2 (mkPccConfiguration [] kCandidateNetworkPolicyAll) "" "carol"
      ∈ calls_of (Unpublish "carol" 5 None None client_with_two_sessions))
    by left.
  destruct (channel_creation_discipline
              (OpUnpublish "carol" 5 None None) client_with_two_sessions
              (state_of (Unpublish "carol" 5 None None client_with_two_sessions))
              _ _ _ _ _ eq_refl Hin) as (Hnone & _ & _ & _ & Hobs & _).
  split; [exact Hin|]. split; [exact Hnone | exact Hobs].
Defined.

(** X17.  Whom an entry point calls.  All the calls that one entry point
    makes on channels go to one channel, and that channel is the one the
    channel map held for some identity when the entry point was called, or
    else the channel that the entry point creates for an identity without an
    entry. *)
Theorem calls_go_to_one_channel_of_the_map
    (op : Op) (c c' : P2PClient) (out : list Call) (x : Call) (pcc : Pcc) :
  exec op c = Some (c', out) →
  x ∈ out →
  channel_of x = Some pcc →
  (∃ id, pc_channels_ c !! id = Some pcc
         ∨ (pc_channels_ c !! id = None ∧ pcc = next_pcc c))
  ∧ (∀ y pcc', y ∈ out → channel_of y = Some pcc' → pcc' = pcc).
Proof.
  intros Hexec Hin Hch.
  destruct (exec_shape _ _ _ _ Hexec)
    as [(_ & Hnone & _)|[(t & rest & -> & Hrest & _)
       |[(_ & _ & Hnone)|(_ & -> & _)]]].
  - apply Hnone in Hin. congruence.
  - assert (Hall : ∀ y pcc', y ∈ calls_of (GetPeerConnectionChannel t c) ++ rest →
      channel_of y = Some pcc' →
      pcc' = value_of (GetPeerConnectionChannel t c)).
    { intros y pcc' [Hy|Hy]%elem_of_app Hy'.
      - destruct (GetPeerConnectionChannel_cases c t) as [(p & H & Heq)|[H Heq]];
          rewrite Heq in *; rewrite ?calls_of_run in *.
        + by apply not_elem_of_nil in Hy.
        + apply elem_of_cons in Hy as [->|Hy];
            [|apply list_elem_of_singleton in Hy as ->];
            unfold value_of; simpl in *; congruence.
      - apply Hrest in Hy as [Hy _]. congruence. }
    pose proof (Hall _ _ Hin Hch) as ->. split.
    + exists t.
      destruct (GetPeerConnectionChannel_cases c t) as [(p & H & ->)|[H ->]];
        [by left|by right].
    + apply Hall.
  - apply Hnone in Hin. congruence.
  - by apply not_elem_of_nil in Hin.
Qed.

Lemma calls_go_to_one_channel_of_the_map_witness :
  PccStop 1 None None ∈ calls_of (Stop "bob" None None client_with_two_sessions)
  ∧ ∃ id, pc_channels_ client_with_two_sessions !! id = Some 1
          ∨ (pc_channels_ client_with_two_sessions !! id = None
             ∧ 1 = next_pcc client_with_two_sessions).
Proof.
  assert (Hin : PccStop 1 None None
                ∈ calls_of (Stop "bob" None None client_with_two_sessions))
    by left.
  split; [exact Hin|].
  apply (calls_go_to_one_channel_of_the_map
           (OpStop "bob" None None) client_with_two_sessions
           (state_of (Stop "bob" None None client_with_two_sessions))
           _ _ 1 eq_refl Hin eq_refl).
Defined.

(** ** Inbound messages and the life of a session *)

(** X13.  [OnMessage] never ends a session and never changes who is
    allowed: every entry of the channel map is still there afterwards, also
    after a close notification, the list of allowed identities and the event
    queue are what they were.  A message from an allowed identity that has a
    session, the close notification included, is handed to the channel of
    the session, and this is all that happens. *)
Theorem OnMessage_keeps_sessions (c : P2PClient) (message remote_id : string) :
  let r := OnMessage message remote_id c in
  allowed_remote_ids_ (state_of r) = allowed_remote_ids_ c
  ∧ event_queue_ (state_of r) = event_queue_ c
  ∧ (∀ id pcc, pc_channels_ c !! id = Some pcc →
       pc_channels_ (state_of r) !! id = Some pcc)
  ∧ (∀ pcc, remote_id ∈ allowed_remote_ids_ c →
       pc_channels_ c !! remote_id = Some pcc →
       r = (tt, c, [PccOnIncomingSignalingMessage pcc message])).
Proof.
  intros r. subst r.
  destruct (decide (remote_id ∈ allowed_remote_ids_ c)) as [H|H].
  - destruct (decide (message = chat_closed ∧ pc_channels_ c !! remote_id = None))
      as [[-> Hn]|Hn].
    + rewrite OnMessage_closing_unknown by done. rewrite state_of_run.
      repeat split; try done. intros pcc _ Hpcc. congruence.
    + rewrite OnMessage_dispatch by done. rewrite state_of_run.
      split; [apply GetPeerConnectionChannel_allowed|].
      split; [apply GetPeerConnectionChannel_event_queue|].
      split; [intros id pcc; apply GetPeerConnectionChannel_keeps|].
      intros pcc _ Hpcc.
      by rewrite (GetPeerConnectionChannel_existing _ _ _ Hpcc).
  - rewrite OnMessage_closed by done. rewrite state_of_run.
    repeat split; try done.
Qed.

Lemma OnMessage_keeps_sessions_witness :
  OnMessage chat_closed "eve" client_with_two_sessions
  = (tt, client_with_two_sessions,
     [PccOnIncomingSignalingMessage 0 chat_closed])
  ∧ pc_channels_
      (state_of (OnMessage chat_closed "eve" client_with_two_sessions))
      !! "bob" = Some 1.
Proof.
  destruct (OnMessage_keeps_sessions client_with_two_sessions chat_closed "eve")
    as (_ & _ & Hkeep & Hdeliver).
  split.
  - apply (Hdeliver 0); [by apply (bool_decide_eq_true_1 _)|reflexivity].
  - apply Hkeep. reflexivity.
Defined.

Lemma Stop_next_pcc c target_id on_success on_failure :
  next_pcc c ≤ next_pcc (state_of (Stop target_id on_success on_failure c)).
Proof.
  rewrite Stop_unfold, state_of_run. simpl.
  by destruct (GetPeerConnectionChannel_frame c target_id) as (_ & _ & _ & ?).
Qed.

(** X15.  [Stop] forgets the session.  When the identity is allowed again and
    a stream is published to it, the client creates a new channel for it,
    registers as its observer and sends the publish request there; in a
    reachable state this channel is not the one that was stopped. *)
Theorem Stop_forgets_session
    (c : P2PClient) (id : string) (on_success on_failure : option Callback) :
  let c1 := state_of (Stop id on_success on_failure c) in
  let c2 := state_of (AddAllowedRemoteId id c1) in
  (∀ stream on_success' on_failure',
     calls_of (Publish id stream on_success' on_failure' c2)
     = [PccNew (next_pcc c1) (pcc_configuration c1) (local_id_ c1) id;
        PccAddObserver (next_pcc c1) (this c1);
        PccPublish (next_pcc c1) stream
          {| captured_on_success := on_success';
             captured_weak_this := this c1;
             captured_target_id := id;
             captured_stream := stream |} on_failure'])
  ∧ (reachable c →
     ∀ pcc, pc_channels_ c !! id = Some pcc → pcc ≠ next_pcc c1).
Proof.
  intros c1 c2. split.
  - intros stream on_success' on_failure'.
    assert (Hnot : id ∉ allowed_remote_ids_ c1) by apply Stop_not_allowed.
    assert (Hc2 : c2 = set_allowed_remote_ids (λ v, v ++ [id]) c1).
    { unfold c2. by rewrite (AddAllowedRemoteId_absent _ _ Hnot). }
    assert (Hin : id ∈ allowed_remote_ids_ c2)
      by apply AddAllowedRemoteId_allowed.
    assert (Hnone : pc_channels_ c2 !! id = None).
    { rewrite Hc2. simpl. apply Stop_channel_gone. }
    rewrite (Publish_open _ _ _ _ _ Hin), calls_of_run.
    rewrite (GetPeerConnectionChannel_absent _ _ Hnone).
    rewrite calls_of_run. unfold value_of. simpl. by rewrite Hc2.
  - intros [_ Halloc _]%reachable_inv pcc Hpcc%Halloc.
    pose proof (Stop_next_pcc c id on_success on_failure). fold c1 in H. lia.
Qed.

Lemma Stop_forgets_session_witness :
  let c1 := state_of (Stop "eve" None None client_with_two_sessions) in
  let c2 := state_of (AddAllowedRemoteId "eve" c1) in
  pc_channels_ client_with_two_sessions !! "eve" = Some 0
  ∧ calls_of (Publish "eve" 5 (Some 1) (Some 2) c2)
    = [PccNew 2 (mkPccConfiguration [] kCandidateNetworkPolicyAll) "" "eve";
       PccAddObserver 2 1;
       PccPublish 2 5
         {| captured_on_success := Some 1; captured_weak_this := 1;
            captured_target_id := "eve"; captured_stream := 5 |} (Some 2)]
  ∧ 0 ≠ next_pcc c1.
Proof.
  intros c1 c2.
  destruct (Stop_forgets_session client_with_two_sessions "eve" None None)
    as [Hcalls Hnew].
  split; [reflexivity|]. split.
  - apply (Hcalls 5 (Some 1) (Some 2)).
  - apply (Hnew client_with_two_sessions_reachable 0). reflexivity.
Defined.

(** X18.  Stopping what is not there.  [Stop] for an identity that has no
    session reports no error: nothing is posted to the event queue.  It
    creates a channel for the identity, asks that channel to stop with the
    callbacks of the caller, and leaves the channel map as it was; the
    identity is not allowed afterwards, and the other identities of the list
    stay, in their order. *)
Theorem Stop_without_session
    (c : P2PClient) (id : string) (on_success on_failure : option Callback) :
  pc_channels_ c !! id = None →
  let r := Stop id on_success on_failure c in
  calls_of r
  = [PccNew (next_pcc c) (pcc_configuration c) (local_id_ c) id;
     PccAddObserver (next_pcc c) (this c);
     PccStop (next_pcc c) on_success on_failure]
  ∧ pc_channels_ (state_of r) = pc_channels_ c
  ∧ event_queue_ (state_of r) = event_queue_ c
  ∧ allowed_remote_ids_ (state_of r)
    = filter (λ y, y ≠ id) (allowed_remote_ids_ c)
  ∧ (id ∉ allowed_remote_ids_ c →
       allowed_remote_ids_ (state_of r) = allowed_remote_ids_ c).
Proof.
  intros Hnone r. subst r.
  rewrite Stop_unfold, (GetPeerConnectionChannel_absent _ _ Hnone).
  rewrite !state_of_run, !calls_of_run. unfold value_of. simpl.
  split; [done|]. split; [by apply delete_insert_id|]. split; [done|].
  split; [done|]. apply erase_remove_absent.
Qed.

Lemma Stop_without_session_witness :
  calls_of (Stop "carol" (Some 1) (Some 2) client_with_two_sessions)
  = [PccNew 2 (mkPccConfiguration [] kCandidateNetworkPolicyAll) "" "carol";
     PccAddObserver 2 1; PccStop 2 (Some 1) (Some 2)]
  ∧ pc_channels_
      (state_of (Stop "carol" (Some 1) (Some 2) client_with_two_sessions))
    = pc_channels_ client_with_two_sessions.
Proof.
  destruct (Stop_without_session client_with_two_sessions "carol"
              (Some 1) (Some 2) eq_refl) as (H1 & H2 & _).
  split; [exact H1 | exact H2].
Defined.

(** ** Observers *)

Lemma count_observer_app x v w :
  count_observer x (v ++ w) = count_observer x v + count_observer x w.
Proof. unfold count_observer. by rewrite filter_app, length_app. Qed.

Lemma count_observer_cons x o v :
  count_observer x (o :: v)
  = (if decide (o = x) then 1 else 0) + count_observer x v.
Proof. unfold count_observer. rewrite filter_cons. by case_decide. Qed.

Lemma count_observer_pos o v : 0 < count_observer o v ↔ o ∈ v.
Proof.
  induction v as [|x v IH].
  - unfold count_observer. simpl. split; [lia|by intros ?%not_elem_of_nil].
  - rewrite count_observer_cons, elem_of_cons. case_decide; subst.
    + split; [by left|lia].
    + rewrite <- IH. simpl. split; [by right|]. by intros [->|?].
Qed.

Lemma RemoveObserver_inv o c c' out :
  RemoveObserver o c = Some (c', out) →
  ∃ before after,
    observers_ c = before ++ o :: after ∧ (o ∉ before)
    ∧ c' = set_observers (λ _, before ++ after) c ∧ out = [].
Proof.
  unfold RemoveObserver, vector_erase.
  destruct (decide (o ∈ observers_ c)) as [Hin|Hnot].
  - destruct (find_if_registered _ _ Hin) as (before & after & Hv & Hnot & Hf).
    rewrite Hf, decide_True by (rewrite Hv, length_app; simpl; lia). simpl.
    intros [= <- <-]. exists before, after.
    split; [done|]. split; [done|]. split; [|done].
    f_equal. rewrite Hv. by rewrite delete_middle.
  - rewrite (find_if_unregistered _ _ Hnot), decide_False by lia. done.
Qed.

(** X9.  Observers are counted.  [AddObserver] registers the observer once
    more, whether it is registered already or not.  [RemoveObserver] has a
    defined result exactly when the observer is registered at least once, so
    always right after [AddObserver] for it; it then takes one registration of
    this observer away, leaves the registrations of the other observers, and
    calls nothing: an observer registered twice is still registered after one
    removal. *)
Theorem observers_are_counted (c : P2PClient) (o : Observer) :
  (∀ x, count_observer x (observers_ (state_of (AddObserver o c)))
        = count_observer x (observers_ c) + (if decide (o = x) then 1 else 0))
  ∧ is_Some (RemoveObserver o (state_of (AddObserver o c)))
  ∧ (is_Some (RemoveObserver o c) ↔ 0 < count_observer o (observers_ c))
  ∧ (∀ c' out,
       RemoveObserver o c = Some (c', out) →
       out = []
       ∧ ∀ x, count_observer x (observers_ c)
              = count_observer x (observers_ c')
                + (if decide (o = x) then 1 else 0)).
Proof.
  assert (Hdef : ∀ c0, o ∈ observers_ c0 → is_Some (RemoveObserver o c0)).
  { intros c0 Hin. unfold RemoveObserver, vector_erase.
    destruct (find_if_registered _ _ Hin) as (before & after & Hv & _ & Hf).
    rewrite Hf, decide_True by (rewrite Hv, length_app; simpl; lia).
    by eexists. }
  split; [|split; [|split]].
  - intros x. change (observers_ (state_of (AddObserver o c)))
      with (observers_ c ++ [o]).
    rewrite count_observer_app, count_observer_cons. simpl.
    change (count_observer x []) with 0. lia.
  - apply Hdef. change (observers_ (state_of (AddObserver o c)))
      with (observers_ c ++ [o]).
    apply elem_of_app. right. left.
  - rewrite count_observer_pos. split; [|apply Hdef].
    intros [[c' out] H]. apply RemoveObserver_inv in H
      as (before & after & -> & _). apply elem_of_app. right. left.
  - intros c' out (before & after & Hv & _ & -> & ->)%RemoveObserver_inv.
    split; [done|]. intros x. simpl. rewrite Hv.
    rewrite !count_observer_app, count_observer_cons. lia.
Qed.

Lemma observers_are_counted_witness :
  let c := state_of (AddObserver 4 (state_of (AddObserver 5
             (state_of (AddObserver 4 client_allowing_eve))))) in
  RemoveObserver 4 c = Some (set_observers (λ _, [5; 4]) c, [])
  ∧ count_observer 4 (observers_ c) = count_observer 4 [5; 4] + 1
  ∧ count_observer 5 (observers_ c) = count_observer 5 [5; 4] + 0.
Proof.
  intros c.
  destruct (observers_are_counted c 4) as (_ & _ & _ & H).
  destruct (H (set_observers (λ _, [5; 4]) c) [] eq_refl) as [_ Hcount].
  split; [reflexivity|]. split; [apply (Hcount 4) | apply (Hcount 5)].
Defined.

(** ** Stop among other threads *)





(** ** What an entry point posts *)

(** X19.  An entry point only adds to the event queue: the tasks that wait
    there, whoever posted them, stay, in their order.  When an entry point
    posts a failure, this is the only task it posts and it makes no call in
    that run; the failure is one of the three the client raises by itself, of
    kind RemoteNotAllowed with the message of [Publish] or of [Send], or of
    kind RemoteNotExisted with the message of [RemoveAllowedRemoteId]. *)
Theorem entry_points_post_only_local_failures
    (op : Op) (c c' : P2PClient) (out : list Call) :
  exec op c = Some (c', out) →
  ∃ posted,
    event_queue_ c' = event_queue_ c ++ posted
    ∧ ∀ on_failure e,
        TaskFailure on_failure e ∈ posted →
        posted = [TaskFailure on_failure e] ∧ out = [] ∧ local_failure e.
Proof.
  assert (Hsame : ∀ (c1 : P2PClient) (out1 : list Call),
    event_queue_ c1 = event_queue_ c →
    ∃ posted,
      event_queue_ c1 = event_queue_ c ++ posted
      ∧ ∀ on_failure e,
          TaskFailure on_failure e ∈ posted →
          posted = [TaskFailure on_failure e] ∧ out1 = [] ∧ local_failure e).
  { intros c1 out1 ->. exists []. split; [by rewrite app_nil_r|].
    by intros ?? ?%not_elem_of_nil. }
  assert (Hp : ∀ on_failure type message,
    local_failure (Exception.new type message) →
    ∃ posted,
      event_queue_ (state_of (post_failure on_failure type message c))
      = event_queue_ c ++ posted
      ∧ ∀ f e,
          TaskFailure f e ∈ posted →
          posted = [TaskFailure f e]
          ∧ calls_of (post_failure on_failure type message c) = []
          ∧ local_failure e).
  { intros [f|] type message Hl.
    - rewrite post_failure_some, state_of_run, calls_of_run.
      exists [TaskFailure f (Exception.new type message)].
      split; [done|]. by intros f' e' [= -> ->]%list_elem_of_singleton.
    - exists []. split; [by rewrite app_nil_r|].
      by intros ?? ?%not_elem_of_nil. }
  assert (Hg : ∀ id,
    event_queue_ (state_of (GetPeerConnectionChannel id c)) = event_queue_ c)
    by apply GetPeerConnectionChannel_event_queue.
  destruct op; simpl; unfold run_unit; try (intros [= <- <-]).
  - by apply Hsame.
  - by apply Hsame.
  - apply Hsame. by destruct (AddAllowedRemoteId_frame c target_id) as [_ [? _]].
  - destruct (decide (target_id ∈ allowed_remote_ids_ c)) as [H|H].
    + rewrite RemoveAllowedRemoteId_open, Stop_unfold, state_of_run by done.
      apply Hsame, Hg.
    + rewrite RemoveAllowedRemoteId_closed by done. apply Hp.
      right. by split.
  - destruct (decide (target_id ∈ allowed_remote_ids_ c)) as [H|H].
    + rewrite Publish_open, state_of_run by done. apply Hsame, Hg.
    + rewrite Publish_closed by done. apply Hp.
      left. split; [done|]. by left.
  - rewrite Unpublish_unfold, state_of_run. apply Hsame, Hg.
  - destruct (decide (target_id ∈ allowed_remote_ids_ c)) as [H|H].
    + rewrite Send_open, state_of_run by done. apply Hsame, Hg.
    + rewrite Send_closed by done. apply Hp.
      left. split; [done|]. by right.
  - rewrite Stop_unfold, state_of_run. apply Hsame, Hg.
  - rewrite GetConnectionStats_unfold, state_of_run. apply Hsame, Hg.
  - by apply Hsame.
  - unfold RemoveObserver.
    destruct (vector_erase _ _) as [v|]; simpl; [|done].
    intros [= <- <-]. by apply Hsame.
  - destruct (decide (remote_id ∈ allowed_remote_ids_ c)) as [H|H].
    + destruct (decide (message = chat_closed ∧ pc_channels_ c !! remote_id = None))
        as [[-> Hn]|Hn].
      * rewrite OnMessage_closing_unknown by done. by apply Hsame.
      * rewrite OnMessage_dispatch, state_of_run by done. apply Hsame, Hg.
    + rewrite OnMessage_closed by done. by apply Hsame.
  - by apply Hsame.
  - exists (map (λ o, TaskNotify o ev) (observers_ c)). split; [done|].
    intros f e Hin. apply list_elem_of_fmap in Hin as (o & [=] & _).
Qed.

Lemma entry_points_post_only_local_failures_witness :
  let c := set_event_queue
             (λ q, q ++ [TaskFailure 9 (Exception.new (kOther 3) "channel")])
             client_with_two_sessions in
  event_queue_ (state_of (Send "carol" "hi" None (Some 1) c))
  = [TaskFailure 9 (Exception.new (kOther 3) "channel");
     TaskFailure 1
       (Exception.new kP2PClientRemoteNotAllowed
          "Sending a message cannot be done since the remote user is not allowed.")]
  ∧ ∃ posted,
      event_queue_ (state_of (Send "carol" "hi" None (Some 1) c))
      = event_queue_ c ++ posted
      ∧ ∀ on_failure e,
          TaskFailure on_failure e ∈ posted → local_failure e.
Proof.
  intros c. split; [reflexivity|].
  destruct (entry_points_post_only_local_failures
              (OpSend "carol" "hi" None (Some 1)) c
              (state_of (Send "carol" "hi" None (Some 1) c))
              (calls_of (Send "carol" "hi" None (Some 1) c)) eq_refl)
    as (posted & Hq & Hl).
  exists posted. split; [exact Hq|].
  intros on_failure e Hin. by destruct (Hl on_failure e Hin) as (_ & _ & ?).
Defined.
